(** * Session-based login of the Flask sample application

    A shallow embedding of [app/app.py]: the user store, the seed routine
    ([create_test_users], [ensure_test_users]) and the four route handlers
    ([index], [login], [dashboard], [logout]) as one request runs them, the
    seed routine again as the threads of one process interleave in it, and
    the properties of the specification that concern them.

    Conventions of the embedding:
    - the MySQL server, the random source of the password hashing and the
      event log live in one [world] that every function threads through;
    - a function that may raise is a computation [io A]: a result [None]
      stands for a raised exception, [try_except] and [finally] are the
      Python constructs;
    - every database call (connect, execute, commit) may raise: whether the
      next call raises is read from the fault schedule [faults] of the world,
      an empty schedule being a database that answers;
    - library code (werkzeug, WTForms, Flask-WTF) is the parameter
      [Externals]; templates are not evaluated, a rendered page is the
      template's name with the context it is given. *)

From Stdlib Require Import Ascii String.
From stdpp Require Import base list strings numbers relations.

Open Scope string_scope.
Open Scope list_scope.
Open Scope nat_scope.

(** ** Data model *)

(** A row of the [users] table: (id, name, email, password_hash). *)
Record user_row := mk_row {
  row_id : Z;
  row_name : string;
  row_email : string;
  row_password_hash : string }.

(** The [users] table, in insertion order, with the counter that gives the
    next row its id (the INSERT statements never give one). *)
Record database := mk_db {
  users : list user_row;
  auto_increment : Z }.

(** What the process does to the outside, in order. *)
Inductive event :=
| EvConnect
| EvSelectCount
| EvInsert (name email : string)
| EvCommit
| EvSelectByEmail (email : string)
| EvSelectById (uid : Z)
| EvSleep (seconds : nat).

Record world := mk_world {
  db : database;
  (* rows inserted on the open connection and not yet committed *)
  pending : list user_row;
  (* the module-level flag of app.py *)
  _test_users_initialized : bool;
  (* true: the next database call raises *)
  faults : list bool;
  (* state of the random source that salts the hashes *)
  entropy : nat;
  trace : list event }.

(** Library functions the application calls. [generate_password_hash] draws
    its salt from the random source, here the second argument.
    [check_password_hash] is werkzeug's on a stored hash whose method it
    knows, where it returns; on any other stored hash werkzeug raises
    [ValueError], which [login] does not catch: that case is outside the
    model. *)
Class Externals := {
  generate_password_hash : string → nat → string;
  check_password_hash : string → string → bool;
  (* wtforms.validators *)
  DataRequired : string → bool;
  Email : string → bool }.

(** ** Computations that may raise *)

Definition io (A : Type) : Type := world → option A * world.

Definition ret {A} (a : A) : io A := λ w, (Some a, w).

Definition bind {A B} (m : io A) (k : A → io B) : io B :=
  λ w, match m w with
       | (Some a, w') => k a w'
       | (None, w') => (None, w')
       end.

Notation "x <- m ;; k" := (bind m (λ x, k))
  (at level 100, m at next level, right associativity).
Notation "m ;; k" := (bind m (λ _, k))
  (at level 100, right associativity).

(** [try: m except Exception: h] *)
Definition try_except {A} (m h : io A) : io A :=
  λ w, match m w with
       | (Some a, w') => (Some a, w')
       | (None, w') => h w'
       end.

(** [try: m finally: f], for a [f] that does not raise. *)
Definition finally {A} (m : io A) (f : world → world) : io A :=
  λ w, let '(r, w') := m w in (r, f w').

Definition modify (f : world → world) : io unit := λ w, (Some tt, f w).
Definition get {A} (f : world → A) : io A := λ w, (Some (f w), w).

(** ** Field updates *)

Definition set_db (d : database) (w : world) : world :=
  mk_world d (pending w) (_test_users_initialized w) (faults w) (entropy w) (trace w).
Definition set_pending (p : list user_row) (w : world) : world :=
  mk_world (db w) p (_test_users_initialized w) (faults w) (entropy w) (trace w).
Definition set_initialized (b : bool) (w : world) : world :=
  mk_world (db w) (pending w) b (faults w) (entropy w) (trace w).
Definition set_faults (f : list bool) (w : world) : world :=
  mk_world (db w) (pending w) (_test_users_initialized w) f (entropy w) (trace w).
Definition set_entropy (n : nat) (w : world) : world :=
  mk_world (db w) (pending w) (_test_users_initialized w) (faults w) n (trace w).
Definition log (e : event) (w : world) : world :=
  mk_world (db w) (pending w) (_test_users_initialized w) (faults w) (entropy w)
           (trace w ++ [e]).

(** ** The database driver (pymysql) *)

(** One call to the server: it is logged, and raises when the schedule says so. *)
Definition db_call (e : event) : io unit :=
  λ w, let w' := log e w in
       match faults w with
       | [] => (Some tt, w')
       | false :: fs => (Some tt, set_faults fs w')
       | true :: fs => (None, set_faults fs w')
       end.

(** [pymysql.connect( **db_params)]: a new connection has an empty transaction. *)
Definition connect : io unit :=
  db_call EvConnect ;; modify (set_pending []).

(** [SELECT COUNT] over [users], then [fetchone()[0]]. *)
Definition select_count : io nat :=
  db_call EvSelectCount ;; get (λ w, length (users (db w))).

(** [INSERT INTO users (name, email, password_hash) VALUES (...)]: the row takes
    the next id and stays in the transaction until the commit. *)
Definition insert_user (name email password_hash : string) : io unit :=
  db_call (EvInsert name email) ;;
  modify (λ w,
    let i := auto_increment (db w) in
    set_pending (pending w ++ [mk_row i name email password_hash])
      (set_db (mk_db (users (db w)) (i + 1)%Z) w)).

(** [conn.commit()] *)
Definition commit : io unit :=
  db_call EvCommit ;;
  modify (λ w,
    set_pending []
      (set_db (mk_db (users (db w) ++ pending w) (auto_increment (db w))) w)).

(** [cursor.close(); conn.close()]: what was not committed is rolled back. *)
Definition close : world → world := set_pending [].

(** [... WHERE email = %s], then [fetchone()]: the first row whose email is
    the given one, compared as it is written. *)
Definition select_by_email (email : string) : io (option user_row) :=
  db_call (EvSelectByEmail email) ;;
  get (λ w, find (λ u, String.eqb (row_email u) email) (users (db w))).

(** [... WHERE id = %s], then [fetchone()]. *)
Definition select_by_id (uid : Z) : io (option user_row) :=
  db_call (EvSelectById uid) ;;
  get (λ w, find (λ u, Z.eqb (row_id u) uid) (users (db w))).

(** [time.sleep(seconds)] *)
Definition sleep (seconds : nat) : io unit := modify (log (EvSleep seconds)).

(** ** Requests, sessions and responses *)

(** The [User] class: what is kept of a row once it is loaded. *)
Record User := mk_User {
  user_id : Z;
  user_name : string;
  user_email : string }.

(** The session cookie: the id Flask-Login stores on login and the queue of
    flashed messages, (category, message), shown by the next page that reads
    them. *)
Record session := mk_session {
  _user_id : option Z;
  _flashes : list (string * string) }.

Inductive http_method := GET | POST.

Record request := mk_request {
  method : http_method;
  path : string;
  cookie : session;
  (* the fields of the submitted form, empty when absent *)
  form_email : string;
  form_password : string;
  (* the form's csrf_token verifies against the session (Flask-WTF) *)
  csrf_valid : bool }.

Inductive endpoint := ep_index | ep_login | ep_dashboard | ep_logout.

Definition url_for (e : endpoint) : string :=
  match e with
  | ep_index => "/"
  | ep_login => "/login"
  | ep_dashboard => "/dashboard"
  | ep_logout => "/logout"
  end.

Inductive field_error := err_required | err_invalid_email | err_csrf.

(** [LoginForm] once bound to a request: the data of its fields and the
    errors validation left on them. *)
Record LoginForm := mk_LoginForm {
  email_data : string;
  password_data : string;
  csrf_errors : list field_error;
  email_errors : list field_error;
  password_errors : list field_error }.

(** A rendered template with its context. The templates are not among the
    sources: what a template reads besides its context is not modelled
    (login.html shows the flashed messages, which empties the queue), and
    the session of an answer is the session as the handler leaves it. *)
Inductive page :=
| index_html (message python_version flask_version mysql_version : string)
| login_html (form : LoginForm)
| dashboard_html (user : User).

Inductive response :=
| Redirect (location : string) (next : option string)
| Render (p : page)
| Abort (status : nat).

(** [flash(message, category)] *)
Definition flash (message category : string) (s : session) : session :=
  mk_session (_user_id s) (_flashes s ++ [(category, message)]).

(** [flask_login.login_user(user)]; [UserMixin.is_active] is [True]. *)
Definition login_user (u : User) (s : session) : session :=
  mk_session (Some (user_id u)) (_flashes s).

(** [flask_login.logout_user()] *)
Definition logout_user (s : session) : session :=
  mk_session None (_flashes s).

Definition login_message : string := "ログインが必要です。".

(** [LoginManager.unauthorized()] with [login_view = 'login']: the login
    message is flashed and the browser sent to the login page, the requested
    page as [next]. *)
Definition unauthorized (r : request) : response * session :=
  (Redirect (url_for ep_login) (Some (path r)),
   flash login_message "message" (cookie r)).

Section App.
Context `{Externals}.

(** [werkzeug.security.generate_password_hash(password)] *)
Definition hash_password (password : string) : io string :=
  λ w, (Some (generate_password_hash password (entropy w)),
        set_entropy (S (entropy w)) w).

(** ** The seed routine *)

Definition test_users : list (string * string * string) :=
  [ ("山田太郎", "yamada@example.com", "password123");
    ("佐藤花子", "sato@example.com", "password123") ].

(** The [for name, email, password in test_users] loop. *)
Fixpoint insert_test_users (l : list (string * string * string)) : io unit :=
  match l with
  | [] => ret tt
  | (name, email, password) :: rest =>
      password_hash <- hash_password password ;;
      insert_user name email password_hash ;;
      insert_test_users rest
  end.

Definition create_test_users : io bool :=
  finally
    (try_except
       (connect ;;
        user_count <- select_count ;;
        (if Nat.eqb user_count 0
         then insert_test_users test_users ;; commit
         else ret tt) ;;
        ret true)
       (ret false))
    close.

(** The [for attempt in range(5)] loop of [ensure_test_users]. *)
Fixpoint seed_attempts (attempts : list nat) : io unit :=
  match attempts with
  | [] => ret tt
  | _ :: rest =>
      ok <- create_test_users ;;
      if ok then modify (set_initialized true)
      else sleep 2 ;; seed_attempts rest
  end.

(** [ensure_test_users], as one request runs it: the lock is free when the
    request takes it and free again when it returns. What the lock does for
    requests that run at once is the subject of [Module Concurrent]. *)
Definition ensure_test_users : io unit :=
  λ w, if _test_users_initialized w then ret tt w
       else if _test_users_initialized w then ret tt w
       else seed_attempts (seq 0 5) w.

(** ** The user store *)

Definition get_user_by_email (email : string) : io (option user_row) :=
  try_except
    (connect ;;
     user_data <- select_by_email email ;;
     modify close ;;
     ret user_data)
    (ret None).

Definition get_user_by_id (uid : Z) : io (option User) :=
  try_except
    (connect ;;
     user_data <- select_by_id uid ;;
     modify close ;;
     ret (match user_data with
          | Some u => Some (mk_User (row_id u) (row_name u) (row_email u))
          | None => None
          end))
    (ret None).

(** The [user_loader] callback. *)
Definition load_user (uid : Z) : io (option User) := get_user_by_id uid.

(** Flask-Login's [current_user]: the user the loader returns for the id of
    the session; [None] is the anonymous user. *)
Definition current_user (s : session) : io (option User) :=
  match _user_id s with
  | Some uid => load_user uid
  | None => ret None
  end.

(** ** The login form *)

(** The validators of one field run in order and stop at [DataRequired]. *)
Definition validate_email (data : string) : list field_error :=
  if DataRequired data
  then (if Email data then [] else [err_invalid_email])
  else [err_required].

Definition validate_password (data : string) : list field_error :=
  if DataRequired data then [] else [err_required].

(** [LoginForm()] on a request that was not validated. *)
Definition unvalidated (r : request) : LoginForm :=
  mk_LoginForm (form_email r) (form_password r) [] [] [].

(** [form.validate()]: every field is validated. *)
Definition validate (r : request) : LoginForm :=
  mk_LoginForm (form_email r) (form_password r)
    (if csrf_valid r then [] else [err_csrf])
    (validate_email (form_email r))
    (validate_password (form_password r)).

Definition has_errors (f : LoginForm) : bool :=
  negb (match csrf_errors f, email_errors f, password_errors f with
        | [], [], [] => true
        | _, _, _ => false
        end).

Definition is_submitted (r : request) : bool :=
  match method r with POST => true | GET => false end.

(** [form.validate_on_submit()], with the form as validation leaves it. *)
Definition validate_on_submit (r : request) : bool * LoginForm :=
  if is_submitted r
  then (negb (has_errors (validate r)), validate r)
  else (false, unvalidated r).

(** ** Route handlers *)

Definition login_failed_message : string :=
  "メールアドレスまたはパスワードが正しくありません。".

Definition index (r : request) : io (response * session) :=
  ensure_test_users ;;
  user <- current_user (cookie r) ;;
  match user with
  | Some _ => ret (Redirect (url_for ep_dashboard) None, cookie r)
  | None =>
      ret (Render (index_html "Welcome to Flask with MySQL" "3.11.4" "2.3.2" "8.0"),
           cookie r)
  end.

Definition login (r : request) : io (response * session) :=
  ensure_test_users ;;
  user <- current_user (cookie r) ;;
  match user with
  | Some _ => ret (Redirect (url_for ep_dashboard) None, cookie r)
  | None =>
      let '(valid, form) := validate_on_submit r in
      if valid then
        user_data <- get_user_by_email (email_data form) ;;
        match user_data with
        | Some u =>
            if check_password_hash (row_password_hash u) (password_data form)
            then
              ret (Redirect (url_for ep_dashboard) None,
                   flash "ログインに成功しました。" "success"
                     (login_user (mk_User (row_id u) (row_name u) (row_email u))
                        (cookie r)))
            else
              ret (Render (login_html form),
                   flash login_failed_message "error" (cookie r))
        | None =>
            ret (Render (login_html form),
                 flash login_failed_message "error" (cookie r))
        end
      else ret (Render (login_html form), cookie r)
  end.

(** The [@login_required] decorator. *)
Definition login_required (view : User → request → io (response * session))
    (r : request) : io (response * session) :=
  user <- current_user (cookie r) ;;
  match user with
  | Some u => view u r
  | None => ret (unauthorized r)
  end.

Definition dashboard : request → io (response * session) :=
  login_required (λ user r, ret (Render (dashboard_html user), cookie r)).

Definition logout : request → io (response * session) :=
  login_required (λ _ r,
    ret (Redirect (url_for ep_index) None,
         flash "ログアウトしました。" "info" (logout_user (cookie r)))).

(** The [@app.route] table: a path that has no rule is a 404, a method the
    rule does not list a 405. *)
Definition app (r : request) : io (response * session) :=
  if String.eqb (path r) "/" then
    match method r with GET => index r | POST => ret (Abort 405, cookie r) end
  else if String.eqb (path r) "/login" then login r
  else if String.eqb (path r) "/dashboard" then
    match method r with GET => dashboard r | POST => ret (Abort 405, cookie r) end
  else if String.eqb (path r) "/logout" then
    match method r with GET => logout r | POST => ret (Abort 405, cookie r) end
  else ret (Abort 404, cookie r).

End App.

(** ** Vocabulary of the statements *)

(** The next [n] database calls do not raise. *)
Definition healthy (n : nat) (w : world) : bool :=
  forallb negb (take n (faults w)).

Fixpoint count_event (p : event → bool) (tr : list event) : nat :=
  match tr with
  | [] => 0
  | e :: tr => (if p e then 1 else 0) + count_event p tr
  end.

Definition is_connect (e : event) : bool :=
  match e with EvConnect => true | _ => false end.
Definition is_insert (e : event) : bool :=
  match e with EvInsert _ _ => true | _ => false end.
Definition is_sleep (e : event) : bool :=
  match e with EvSleep _ => true | _ => false end.
Definition is_select_by_email (e : event) : bool :=
  match e with EvSelectByEmail _ => true | _ => false end.
(* the events of the seed routine and of its retry loop *)
Definition is_seed_event (e : event) : bool :=
  match e with
  | EvConnect | EvSelectCount | EvInsert _ _ | EvCommit | EvSleep _ => true
  | EvSelectByEmail _ | EvSelectById _ => false
  end.

Section Vocabulary.
Context `{Externals}.

(** The two demo rows, as a run that starts with the id counter at [i] and the
    random source at [e] inserts them. *)
Definition seeded_rows (i : Z) (e : nat) : list user_row :=
  [ mk_row i "山田太郎" "yamada@example.com"
      (generate_password_hash "password123" e);
    mk_row (i + 1) "佐藤花子" "sato@example.com"
      (generate_password_hash "password123" (S e)) ].

(** The world in which attempt [k] of [ensure_test_users] starts, when the
    attempts before it failed: each ran [create_test_users] and slept. *)
Definition after_failed_attempt (w : world) : world :=
  log (EvSleep 2) (snd (create_test_users w)).

Fixpoint attempt_world (k : nat) (w : world) : world :=
  match k with
  | 0 => w
  | S k => attempt_world k (after_failed_attempt w)
  end.

(** What [get_user_by_email] returns: the first row with that email when the
    connection and the query succeed, nothing otherwise. *)
Definition lookup_by_email (email : string) (w : world) : option user_row :=
  if healthy 2 w
  then find (λ u, String.eqb (row_email u) email) (users (db w))
  else None.

(** What [load_user] returns, likewise. *)
Definition lookup_by_id (uid : Z) (w : world) : option User :=
  if healthy 2 w
  then match find (λ u, Z.eqb (row_id u) uid) (users (db w)) with
       | Some u => Some (mk_User (row_id u) (row_name u) (row_email u))
       | None => None
       end
  else None.

(** The user a session is active for, if any. *)
Definition active_user (s : session) (w : world) : option User :=
  match _user_id s with
  | Some uid => lookup_by_id uid w
  | None => None
  end.

(** The world in which [login] looks the submitted email up: after the
    seeding step and the loading of the current user. *)
Definition login_world (r : request) (w : world) : world :=
  snd (current_user (cookie r) (snd (ensure_test_users w))).

(** The row the submitted credentials are accepted for, if any: the one the
    lookup by email returns, when the password verifies against its hash. *)
Definition credentials_accepted (r : request) (w : world) : option user_row :=
  match lookup_by_email (form_email r) w with
  | Some u =>
      if check_password_hash (row_password_hash u) (form_password r)
      then Some u else None
  | None => None
  end.

(** Why a submitted form is turned down at the credential check. *)
Inductive failure_cause := no_such_user | wrong_password | lookup_error.

Definition login_fails_with (c : failure_cause) (r : request) (w : world) : Prop :=
  match c with
  | no_such_user =>
      healthy 2 w = true
      ∧ find (λ u, String.eqb (row_email u) (form_email r)) (users (db w)) = None
  | wrong_password =>
      healthy 2 w = true
      ∧ ∃ u, find (λ u, String.eqb (row_email u) (form_email r)) (users (db w)) = Some u
           ∧ check_password_hash (row_password_hash u) (form_password r) = false
  | lookup_error => healthy 2 w = false
  end.

End Vocabulary.

(** ** A sample environment

    Stand-ins for the library functions, and a few worlds and requests, on
    which the statements below are exercised. A hash is the password after
    its salt; the salt is as long as the state of the random source. *)
Module Sample.

Fixpoint salt (n : nat) : string :=
  match n with
  | 0 => "$"
  | S n => String "*"%char (salt n)
  end.

Fixpoint skip_salt (h : string) : string :=
  match h with
  | String c h' => if Ascii.eqb c "*"%char then skip_salt h' else h
  | EmptyString => h
  end.

Fixpoint has_at (s : string) : bool :=
  match s with
  | String c s' => Ascii.eqb c "@"%char || has_at s'
  | EmptyString => false
  end.

Definition externals : Externals := {|
  generate_password_hash := λ password n, String.append (salt n) password;
  check_password_hash := λ h password, String.eqb (skip_salt h) (String "$"%char password);
  DataRequired := λ data, negb (String.eqb data "");
  Email := has_at |}.

Definition yamada : user_row :=
  mk_row 1 "山田太郎" "yamada@example.com" (String.append (salt 0) "password123").
Definition sato : user_row :=
  mk_row 2 "佐藤花子" "sato@example.com" (String.append (salt 1) "password123").

(** A fresh process in front of an empty table. *)
Definition empty_world : world := mk_world (mk_db [] 1) [] false [] 0 [].

(** The same once the demo users are seeded. *)
Definition seeded_world : world :=
  mk_world (mk_db [yamada; sato] 3) [] true [] 2 [].

(** A fresh process whose database is down for one call, then up. *)
Definition flaky_world : world := mk_world (mk_db [] 1) [] false [true] 0 [].

(** A fresh process whose database stays down for five calls. *)
Definition down_world : world :=
  mk_world (mk_db [] 1) [] false [true; true; true; true; true] 0 [].

Definition anonymous : session := mk_session None [].
Definition yamada_session : session := mk_session (Some 1%Z) [].

Definition post_login (s : session) (email password : string) : request :=
  mk_request POST "/login" s email password true.

Definition get_page (s : session) (p : string) : request :=
  mk_request GET p s "" "" true.

End Sample.

(** ** Concurrent requests

    [ensure_test_users] and, inside it, [create_test_users], as run by the
    threads of one server process: a thread is at a statement of the source
    and moves to the next in one step, steps of different threads interleave
    in any order, and a database call may succeed or raise at every turn. The
    threads share the flag, the lock and the table; a connection's
    uncommitted rows are its thread's own. *)
Module Concurrent.

Record shared := mk_shared {
  table : list user_row;
  next_id : Z;
  flag : bool;                (* _test_users_initialized *)
  lock : option nat }.        (* the thread that holds _test_users_lock *)

(** The statement a thread is at. [attempt] is the loop variable of
    [for attempt in range(5)], [todo] what is left of [test_users], [tx] the
    rows inserted on the thread's connection and not yet committed. *)
Inductive pc :=
| at_check                    (* if _test_users_initialized: return *)
| at_acquire                  (* with _test_users_lock: *)
| at_recheck                  (* if _test_users_initialized: return *)
| at_connect (attempt : nat)  (* conn = pymysql.connect( **db_params) *)
| at_count (attempt : nat)    (* SELECT COUNT ...; if user_count == 0: *)
| at_insert (attempt : nat) (todo : list (string * string * string))
            (tx : list user_row)          (* cursor.execute(INSERT ...) *)
| at_commit (attempt : nat) (tx : list user_row)   (* conn.commit() *)
| at_set_flag                 (* _test_users_initialized = True; return *)
| at_sleep (attempt : nat)    (* time.sleep(2), then the next attempt *)
| at_release                  (* the with block is left *)
| returned.

Definition set_table (t : list user_row) (σ : shared) : shared :=
  mk_shared t (next_id σ) (flag σ) (lock σ).
Definition set_next_id (i : Z) (σ : shared) : shared :=
  mk_shared (table σ) i (flag σ) (lock σ).
Definition set_flag (b : bool) (σ : shared) : shared :=
  mk_shared (table σ) (next_id σ) b (lock σ).
Definition set_lock (l : option nat) (σ : shared) : shared :=
  mk_shared (table σ) (next_id σ) (flag σ) l.

(** Where the loop over [test_users] goes after an insert. *)
Definition after_insert (attempt : nat) (todo : list (string * string * string))
    (tx : list user_row) : pc :=
  match todo with
  | [] => at_commit attempt tx
  | _ :: _ => at_insert attempt todo tx
  end.

(** Where [range(5)] goes after a failed attempt. *)
Definition after_sleep (attempt : nat) : pc :=
  if S attempt <? 5 then at_connect (S attempt) else at_release.

Section Steps.
Context `{Externals}.

(** One step of thread [i]. *)
Inductive thread_step (i : nat) : shared → pc → shared → pc → Prop :=
| step_check_set σ :
    flag σ = true → thread_step i σ at_check σ returned
| step_check_unset σ :
    flag σ = false → thread_step i σ at_check σ at_acquire
| step_acquire σ :
    lock σ = None → thread_step i σ at_acquire (set_lock (Some i) σ) at_recheck
| step_recheck_set σ :
    flag σ = true → thread_step i σ at_recheck σ at_release
| step_recheck_unset σ :
    flag σ = false → thread_step i σ at_recheck σ (at_connect 0)
| step_connect σ k :
    thread_step i σ (at_connect k) σ (at_count k)
| step_connect_raises σ k :
    thread_step i σ (at_connect k) σ (at_sleep k)
| step_count_empty σ k :
    table σ = [] →
    thread_step i σ (at_count k) σ (after_insert k test_users [])
| step_count_nonempty σ k :
    table σ ≠ [] → thread_step i σ (at_count k) σ at_set_flag
| step_count_raises σ k :
    thread_step i σ (at_count k) σ (at_sleep k)
| step_insert σ k name email password rest tx salt :
    thread_step i σ (at_insert k ((name, email, password) :: rest) tx)
      (set_next_id (next_id σ + 1)%Z σ)
      (after_insert k rest
         (tx ++ [mk_row (next_id σ) name email
                   (generate_password_hash password salt)]))
| step_insert_raises σ k todo tx :
    thread_step i σ (at_insert k todo tx) σ (at_sleep k)
| step_commit σ k tx :
    thread_step i σ (at_commit k tx) (set_table (table σ ++ tx) σ) at_set_flag
| step_commit_raises σ k tx :
    thread_step i σ (at_commit k tx) σ (at_sleep k)
| step_set_flag σ :
    thread_step i σ at_set_flag (set_flag true σ) at_release
| step_sleep σ k :
    thread_step i σ (at_sleep k) σ (after_sleep k)
| step_release σ :
    thread_step i σ at_release (set_lock None σ) returned.

(** The process: the shared state and its threads, by thread id. A request
    may arrive at any time and starts a thread. *)
Definition state : Type := shared * list pc.

Inductive step : state → state → Prop :=
| step_thread σ ts i p σ' p' :
    ts !! i = Some p → thread_step i σ p σ' p' →
    step (σ, ts) (σ', <[i:=p']> ts)
| step_request σ ts :
    step (σ, ts) (σ, ts ++ [at_check]).

(** A process that just started, in front of the table [t]. *)
Definition initial (t : list user_row) (i : Z) : state :=
  (mk_shared t i false None, []).

End Steps.

(** The thread is inside the [with _test_users_lock] block. *)
Definition holds_lock (p : pc) : bool :=
  match p with
  | at_check | at_acquire | returned => false
  | _ => true
  end.

(** The thread is between the count and the commit of [create_test_users]. *)
Definition inserting (p : pc) : bool :=
  match p with
  | at_insert _ _ _ | at_commit _ _ => true
  | _ => false
  end.

Definition names (rows : list user_row) : list (string * string) :=
  map (λ u, (row_name u, row_email u)) rows.

Definition demo_names : list (string * string) :=
  [ ("山田太郎", "yamada@example.com"); ("佐藤花子", "sato@example.com") ].

(** An open transaction holds the demo users inserted so far, in order, and
    was opened on an empty table that is still empty. *)
Definition tx_ok (σ : shared) (p : pc) : Prop :=
  match p with
  | at_insert _ todo tx =>
      table σ = [] ∧ names tx ++ map (λ u, (u.1.1, u.1.2)) todo = demo_names
  | at_commit _ tx => table σ = [] ∧ names tx = demo_names
  | _ => True
  end.

(** The table is as the process found it or, if it found it empty, holds the
    two demo users, each once. *)
Definition table_ok (t : list user_row) (σ : shared) : Prop :=
  table σ = t ∨ (t = [] ∧ names (table σ) = demo_names).

Definition invariant (t : list user_row) (s : state) : Prop :=
  (∀ i p, s.2 !! i = Some p → holds_lock p = true → lock s.1 = Some i)
  ∧ (∀ i p, s.2 !! i = Some p → tx_ok s.1 p)
  ∧ table_ok t s.1.

End Concurrent.

(** ** Startup and the serving of requests *)

Section Server.
Context `{Externals}.

(** [app.run(...)], for the requests that arrive one after the other: each is
    answered in the world the one before it left. Flask answers a request
    whose handler raises with a 500 and goes on serving; the session cookie
    is then the one the request came with. *)
Fixpoint run (rs : list request) : io (list (response * session)) :=
  match rs with
  | [] => ret []
  | r :: rs =>
      answer <- try_except (app r) (ret (Abort 500, cookie r)) ;;
      answers <- run rs ;;
      ret (answer :: answers)
  end.

(** The [if __name__ == '__main__'] block: the seed routine is called once,
    its result dropped, then the requests are served. *)
Definition main (rs : list request) : io (list (response * session)) :=
  create_test_users ;; run rs.

(** The database calls a run of the seed routine makes when none of them
    raises: connect and count, and on an empty table two inserts and the
    commit. *)
Definition seed_calls (w : world) : nat :=
  match users (db w) with
  | [] => 5
  | _ :: _ => 2
  end.

(** How the application may change the world it runs in: the flag is never
    unset, rows are never changed or removed, and the only rows ever added
    are the two demo rows, to an empty table. *)
Definition evolves (w w' : world) : Prop :=
  (_test_users_initialized w = true → _test_users_initialized w' = true)
  ∧ (users (db w') = users (db w)
     ∨ (users (db w) = [] ∧ ∃ i e, users (db w') = seeded_rows i e)).

(** A computation that changes the world only as [evolves] allows, whether
    it returns or raises. *)
Definition keeps {A} (m : io A) : Prop :=
  ∀ w, evolves w (snd (m w)).

End Server.

(* connections and SELECTs by email or id: what serving a page needs *)
Definition is_lookup_event (e : event) : bool :=
  match e with
  | EvConnect | EvSelectByEmail _ | EvSelectById _ => true
  | _ => false
  end.

(** An upper bound on the steps a thread has left before it returns from
    [ensure_test_users]. *)
Definition steps_left (p : Concurrent.pc) : nat :=
  match p with
  | Concurrent.at_check => 52
  | Concurrent.at_acquire => 51
  | Concurrent.at_recheck => 50
  | Concurrent.at_connect k => 10 * (4 - k) + 9
  | Concurrent.at_count k => 10 * (4 - k) + 8
  | Concurrent.at_insert k todo _ => 10 * (4 - k) + 5 + length todo
  | Concurrent.at_commit k _ => 10 * (4 - k) + 5
  | Concurrent.at_sleep k => 10 * (4 - k) + 3
  | Concurrent.at_set_flag => 2
  | Concurrent.at_release => 1
  | Concurrent.returned => 0
  end.

(** A computation that, once seeding is recorded, returns after at most [n]
    database calls, all of them connections and lookups, and leaves the
    database and the flag alone. *)
Definition reads_only {A} (n : nat) (m : io A) : Prop :=
  ∀ w, _test_users_initialized w = true →
    ∃ a w' tr, m w = (Some a, w')
      ∧ db w' = db w
      ∧ _test_users_initialized w' = true
      ∧ trace w' = trace w ++ tr
      ∧ Forall (λ e, is_lookup_event e = true) tr
      ∧ length tr ≤ n.

(** The thread has left the seed routine's attempts behind, or never entered
    them. *)
Definition outside_attempts (p : Concurrent.pc) : bool :=
  match p with
  | Concurrent.at_check | Concurrent.at_acquire | Concurrent.at_recheck
  | Concurrent.at_release | Concurrent.returned => true
  | _ => false
  end.

(** What holds of the lock and of the flag in every state the threads reach:
    the lock is held by a thread that is inside the with block; where the
    flag is about to be set, or is set, the table has a row; and once it is
    set no thread is in an attempt. *)
Definition settled (s : Concurrent.state) : Prop :=
  (∀ i, Concurrent.lock s.1 = Some i →
     ∃ p, s.2 !! i = Some p ∧ Concurrent.holds_lock p = true)
  ∧ (∀ i, s.2 !! i = Some Concurrent.at_set_flag → Concurrent.table s.1 ≠ [])
  ∧ (Concurrent.flag s.1 = true →
     Concurrent.table s.1 ≠ []
     ∧ ∀ i p, s.2 !! i = Some p → outside_attempts p = true).

(** ** The provisioning script

    [create_test_users.py], run on its own against the same table. It does
    not count the rows first: it relies on INSERT IGNORE, which skips a row
    that would break a unique key. The schema is not part of the sources;
    whether it declares [users.email] UNIQUE is the parameter
    [email_is_unique]. The id counter moves on for a skipped row as well. *)
Module Script.
Section WithSchema.
Context `{Externals}.
Variable email_is_unique : bool.

(** The row would break the unique key on [email]: a row of the table, or one
    inserted earlier on this connection, has that email. *)
Definition duplicate_key (email : string) (w : world) : bool :=
  email_is_unique
  && existsb (λ u, String.eqb (row_email u) email) (users (db w) ++ pending w).

(** [INSERT IGNORE INTO users (name, email, password_hash) VALUES (...)] *)
Definition insert_ignore_user (name email password_hash : string) : io unit :=
  db_call (EvInsert name email) ;;
  modify (λ w,
    let i := auto_increment (db w) in
    set_pending
      (pending w ++
         if duplicate_key email w then []
         else [mk_row i name email password_hash])
      (set_db (mk_db (users (db w)) (i + 1)%Z) w)).

(** The [for name, email, password in test_users] loop of the script. *)
Fixpoint insert_test_users (l : list (string * string * string)) : io unit :=
  match l with
  | [] => ret tt
  | (name, email, password) :: rest =>
      password_hash <- hash_password password ;;
      insert_ignore_user name email password_hash ;;
      insert_test_users rest
  end.

(** The script's [create_test_users()]: it returns nothing, and what it
    catches it only prints. *)
Definition create_test_users : io unit :=
  try_except
    (connect ;;
     insert_test_users test_users ;;
     commit ;;
     modify close ;;
     ret tt)
    (ret tt).

End WithSchema.
End Script.

(** The emails of a table, and whether one of them is the given one. *)
Definition emails (rows : list user_row) : list string := map row_email rows.

Definition has_email (email : string) (rows : list user_row) : bool :=
  existsb (λ u, String.eqb (row_email u) email) rows.

Section MissingRows.
Context `{Externals}.

(** The rows a run of the script adds when the schema has the unique key:
    the demo rows whose email the table does not hold yet. *)
Definition missing_rows (i : Z) (e : nat) (rows : list user_row) : list user_row :=
  (if has_email "yamada@example.com" rows then []
   else [mk_row i "山田太郎" "yamada@example.com"
           (generate_password_hash "password123" e)])
  ++ (if has_email "sato@example.com" rows then []
      else [mk_row (i + 1) "佐藤花子" "sato@example.com"
              (generate_password_hash "password123" (S e))]).

End MissingRows.

(** * Properties *)

Section SeedProperties.
Context `{Externals}.

(** ** The seed routine *)

Lemma count_event_app p tr1 tr2 :
  count_event p (tr1 ++ tr2) = count_event p tr1 + count_event p tr2.
Proof. induction tr1 as [|e tr1 IH]; simpl; [reflexivity | rewrite IH; lia]. Qed.

(** What one run does, over every table and every fault schedule. *)
Lemma create_test_users_cases w :
  ∃ b w' tr,
    create_test_users w = (Some b, w')
    ∧ _test_users_initialized w' = _test_users_initialized w
    ∧ pending w' = []
    ∧ trace w' = trace w ++ EvConnect :: tr
    ∧ count_event is_connect tr = 0
    ∧ count_event is_sleep tr = 0
    ∧ length tr ≤ 4
    ∧ Forall (λ e, is_seed_event e = true) tr
    ∧ (users (db w) ≠ [] → db w' = db w ∧ count_event is_insert tr = 0)
    ∧ (b = false → users (db w') = users (db w))
    ∧ (users (db w) = [] → b = true →
         users (db w') = seeded_rows (auto_increment (db w)) (entropy w))
    ∧ (healthy 5 w = true → b = true).
Proof.
  destruct w as [[us ai] p ini fs e tr0].
  destruct fs as [|[] fs]; [| |destruct fs as [|[] fs]];
    [| | | |destruct us as [|u us];
           [destruct fs as [|[] fs];
            [| |destruct fs as [|[] fs]; [| |destruct fs as [|[] fs]]]|]].
  all: try (destruct us as [|u us]).
  all: eexists _, _, _; (split; [cbv -[Z.add Datatypes.app]; reflexivity|]); cbn.
  all: split; [reflexivity|]; split; [reflexivity|].
  all: split; [rewrite <- ?app_assoc; reflexivity|].
  all: unfold healthy, seeded_rows; cbn.
  all: repeat split; intros; try lia; try discriminate; try congruence.
  all: repeat constructor.
Qed.

Lemma create_test_users_empty_healthy w :
  users (db w) = [] → healthy 5 w = true →
  create_test_users w =
    (Some true,
     mk_world
       (mk_db (seeded_rows (auto_increment (db w)) (entropy w))
              (auto_increment (db w) + 1 + 1)%Z)
       [] (_test_users_initialized w) (drop 5 (faults w)) (S (S (entropy w)))
       (trace w ++ [EvConnect; EvSelectCount;
                    EvInsert "山田太郎" "yamada@example.com";
                    EvInsert "佐藤花子" "sato@example.com"; EvCommit])).
Proof.
  destruct w as [[us ai] p ini fs e tr0]; cbn [db users]; intros -> Hh.
  destruct fs as [|[] [|[] [|[] [|[] [|[] ?]]]]]; try discriminate Hh.
  all: cbv -[Z.add Datatypes.app]; rewrite <- ?app_assoc; reflexivity.
Qed.

(** A run never raises, and leaves the flag alone. *)
Lemma create_test_users_returns w :
  ∃ b, fst (create_test_users w) = Some b.
Proof.
  destruct (create_test_users_cases w) as (b & w' & tr & -> & _). by exists b.
Qed.

Lemma create_test_users_flag w :
  _test_users_initialized (snd (create_test_users w)) = _test_users_initialized w.
Proof.
  destruct (create_test_users_cases w) as (b & w' & tr & -> & Hf & _). exact Hf.
Qed.

Lemma attempt_world_flag k w :
  _test_users_initialized (attempt_world k w) = _test_users_initialized w.
Proof.
  revert w; induction k as [|k IH]; intros w; simpl; [reflexivity|].
  rewrite IH. unfold after_failed_attempt; simpl. apply create_test_users_flag.
Qed.

(** The trace of [k] failed attempts: [k] connections, [k] sleeps of 2 s. *)
Lemma attempt_world_trace k w :
  ∃ tr, trace (attempt_world k w) = trace w ++ tr
        ∧ count_event is_connect tr = k
        ∧ count_event is_sleep tr = k
        ∧ length tr ≤ 6 * k
        ∧ Forall (λ e, is_sleep e = true → e = EvSleep 2) tr.
Proof.
  revert w; induction k as [|k IH]; intros w; simpl.
  { exists []. rewrite app_nil_r. repeat split; auto. }
  destruct (IH (after_failed_attempt w)) as (tr & Htr & Hc & Hs & Hl & Hall).
  destruct (create_test_users_cases w)
    as (b & w' & tr1 & Hrun & _ & _ & Htr1 & Hc1 & Hs1 & Hl1 & _).
  assert (Hw : trace (after_failed_attempt w) = trace w ++ EvConnect :: tr1 ++ [EvSleep 2]).
  { unfold after_failed_attempt. rewrite Hrun. simpl. rewrite Htr1, <- app_assoc.
    reflexivity. }
  exists (EvConnect :: tr1 ++ [EvSleep 2] ++ tr). split; [|split; [|split; [|split]]].
  - rewrite Htr, Hw, <- !app_assoc. simpl. rewrite <- !app_assoc. reflexivity.
  - simpl. rewrite !count_event_app. simpl. lia.
  - simpl. rewrite !count_event_app. simpl. lia.
  - simpl. rewrite !length_app. simpl. lia.
  - constructor; [discriminate|]. apply Forall_app. split.
    + clear -Hs1. induction tr1 as [|e1 tr1 IH1]; constructor.
      * simpl in Hs1. destruct (is_sleep e1); [lia | discriminate].
      * apply IH1. simpl in Hs1. lia.
    + constructor; auto.
Qed.

(** The loop of [ensure_test_users], attempt by attempt. *)
Lemma seed_attempts_cases l w :
  (∃ k, k < length l
      ∧ (∀ j, j < k → fst (create_test_users (attempt_world j w)) = Some false)
      ∧ fst (create_test_users (attempt_world k w)) = Some true
      ∧ seed_attempts l w =
          (Some tt, set_initialized true (snd (create_test_users (attempt_world k w)))))
  ∨ ((∀ j, j < length l → fst (create_test_users (attempt_world j w)) = Some false)
      ∧ seed_attempts l w = (Some tt, attempt_world (length l) w)).
Proof.
  revert w; induction l as [|a l IH]; intros w.
  { right. split; [intros j Hj; simpl in Hj; lia | reflexivity]. }
  destruct (create_test_users_cases w) as (b & w' & tr & Hrun & _).
  destruct b.
  - left. exists 0. simpl. split; [lia|]. split; [intros j Hj; lia|].
    rewrite Hrun. split; [reflexivity|].
    unfold bind. rewrite Hrun. reflexivity.
  - assert (Hstep : seed_attempts (a :: l) w = seed_attempts l (after_failed_attempt w)).
    { simpl. unfold bind at 1. rewrite Hrun.
      unfold after_failed_attempt. rewrite Hrun. reflexivity. }
    destruct (IH (after_failed_attempt w)) as [(k & Hk & Hbefore & Hok & Heq)|[Hall Heq]].
    + left. exists (S k). simpl. split; [lia|]. split; [|split; [exact Hok|]].
      * intros [|j] Hj; simpl; [by rewrite Hrun | apply Hbefore; lia].
      * rewrite <- Heq. exact Hstep.
    + right. split.
      * intros [|j] Hj; simpl; [by rewrite Hrun | apply Hall; simpl in Hj; lia].
      * rewrite Hstep, Heq. reflexivity.
Qed.

(** The loop only adds to the trace, and starts with a connection. *)
Lemma seed_attempts_extends l w :
  ∃ tr, trace (snd (seed_attempts l w)) = trace w ++ tr.
Proof.
  revert w; induction l as [|a l IH]; intros w; simpl.
  { exists []. by rewrite app_nil_r. }
  unfold bind at 1.
  destruct (create_test_users_cases w) as (b & w' & tr & -> & _ & _ & Htr & _).
  destruct b; simpl.
  - rewrite Htr. eauto.
  - destruct (IH (log (EvSleep 2) w')) as (tr' & Htr').
    unfold bind, sleep, modify. rewrite Htr'. simpl. rewrite Htr, <- !app_assoc.
    eauto.
Qed.

Lemma seed_attempts_connects l w :
  l ≠ [] → ∃ tr, trace (snd (seed_attempts l w)) = trace w ++ EvConnect :: tr.
Proof.
  destruct l as [|a l]; [congruence|]. intros _. simpl. unfold bind at 1.
  destruct (create_test_users_cases w) as (b & w' & tr & -> & _ & _ & Htr & _).
  destruct b; simpl.
  - rewrite Htr. eauto.
  - destruct (seed_attempts_extends l (log (EvSleep 2) w')) as (tr' & Htr').
    unfold bind, sleep, modify. rewrite Htr'. simpl. rewrite Htr, <- !app_assoc.
    simpl. eauto.
Qed.

Lemma ensure_test_users_unfold w :
  _test_users_initialized w = false →
  ensure_test_users w = seed_attempts (seq 0 5) w.
Proof. intros Hf. unfold ensure_test_users. rewrite Hf. reflexivity. Qed.

(** C5: run against an empty table on a database that answers, the seed
    routine inserts exactly the two demo users, ('山田太郎',
    'yamada@example.com') and ('佐藤花子', 'sato@example.com'), each with a
    hash of 'password123', commits and reports success; run against a table
    that has a row it inserts nothing, whatever the database does. *)
Theorem create_test_users_seeds_empty_table (w : world) :
  (users (db w) = [] → healthy 5 w = true →
   ∃ w', create_test_users w = (Some true, w')
     ∧ users (db w') =
         [ mk_row (auto_increment (db w)) "山田太郎" "yamada@example.com"
             (generate_password_hash "password123" (entropy w));
           mk_row (auto_increment (db w) + 1) "佐藤花子" "sato@example.com"
             (generate_password_hash "password123" (S (entropy w))) ]
     ∧ trace w' = trace w ++
         [ EvConnect; EvSelectCount;
           EvInsert "山田太郎" "yamada@example.com";
           EvInsert "佐藤花子" "sato@example.com"; EvCommit ])
  ∧ (users (db w) ≠ [] →
     ∃ b w' tr, create_test_users w = (Some b, w')
       ∧ db w' = db w
       ∧ trace w' = trace w ++ tr
       ∧ count_event is_insert tr = 0).
Proof.
  split.
  - intros Hempty Hh. eexists. split; [apply create_test_users_empty_healthy; assumption|].
    split; reflexivity.
  - intros Hne.
    destruct (create_test_users_cases w)
      as (b & w' & tr & Hrun & _ & _ & Htr & _ & _ & _ & _ & Hkeep & _).
    destruct (Hkeep Hne) as [Hdb Hins].
    exists b, w', (EvConnect :: tr). repeat split; assumption.
Qed.

(** C6: once a run of the seed routine has reported success (as every run
    does when the database answers), a second run leaves the table as the
    first left it; and whatever the database does, the table after two runs
    is the table before them or, when that was empty, the two demo rows
    once. *)
Theorem create_test_users_idempotent (w : world) :
  let w1 := snd (create_test_users w) in
  let w2 := snd (create_test_users w1) in
  (fst (create_test_users w) = Some true → users (db w2) = users (db w1))
  ∧ (healthy 5 w = true → users (db w2) = users (db w1))
  ∧ (users (db w2) = users (db w)
     ∨ (users (db w) = [] ∧ ∃ i e, users (db w2) = seeded_rows i e)).
Proof.
  intros w1 w2. subst w1 w2.
  destruct (create_test_users_cases w)
    as (b & w1 & tr1 & Hrun1 & _ & _ & _ & _ & _ & _ & _ & Hkeep1 & Hfail1 & Hseed1 & Hh1).
  rewrite Hrun1. simpl.
  destruct (create_test_users_cases w1)
    as (b2 & w2 & tr2 & Hrun2 & _ & _ & _ & _ & _ & _ & _ & Hkeep2 & Hfail2 & Hseed2 & _).
  rewrite Hrun2. simpl.
  assert (Hsucc : b = true → users (db w2) = users (db w1)).
  { intros ->. destruct (users (db w)) as [|u us] eqn:Hu.
    - assert (Hne : users (db w1) ≠ []).
      { rewrite (Hseed1 eq_refl eq_refl). discriminate. }
      destruct (Hkeep2 Hne) as [-> _]. reflexivity.
    - assert (Hne : users (db w1) ≠ []).
      { destruct Hkeep1 as [-> _]; [discriminate|]. rewrite Hu. discriminate. }
      destruct (Hkeep2 Hne) as [-> _]. reflexivity. }
  split; [intros [= ->]; auto|]. split; [intros Hh; auto|].
  destruct (users (db w)) as [|u us] eqn:Hu.
  - destruct b.
    + right. split; [reflexivity|]. rewrite (Hsucc eq_refl), (Hseed1 eq_refl eq_refl).
      eauto.
    + assert (Hw1 : users (db w1) = []) by (rewrite (Hfail1 eq_refl); reflexivity).
      destruct b2.
      * right. split; [reflexivity|]. rewrite (Hseed2 Hw1 eq_refl). eauto.
      * left. rewrite (Hfail2 eq_refl). exact Hw1.
  - left.
    assert (Hdb1 : db w1 = db w) by (apply Hkeep1; discriminate).
    assert (Hne : users (db w1) ≠ []) by (rewrite Hdb1, Hu; discriminate).
    destruct (Hkeep2 Hne) as [-> _]. rewrite Hdb1. exact Hu.
Qed.

(** C7: the flag is written only by [ensure_test_users], and only after a
    call of the seed routine that returned success. With the flag set a call
    changes nothing: no database call, no event, the same world. With the
    flag unset it ends set exactly when one of the (at most five) attempts
    succeeded, the world then being the one that attempt left with the flag
    set; when all five fail the flag stays unset and the next call connects
    to the database again. *)
Theorem ensure_test_users_flag (w : world) :
  (_test_users_initialized w = true → ensure_test_users w = (Some tt, w))
  ∧ (_test_users_initialized w = false →
     ∃ w', ensure_test_users w = (Some tt, w')
       ∧ (_test_users_initialized w' = true →
          ∃ k, k < 5
            ∧ fst (create_test_users (attempt_world k w)) = Some true
            ∧ w' = set_initialized true (snd (create_test_users (attempt_world k w))))
       ∧ ((∃ k, k < 5 ∧ fst (create_test_users (attempt_world k w)) = Some true) →
          _test_users_initialized w' = true)
       ∧ ((∀ k, k < 5 → fst (create_test_users (attempt_world k w)) = Some false) →
          _test_users_initialized w' = false
          ∧ ∃ tr, trace (snd (ensure_test_users w')) = trace w' ++ EvConnect :: tr)).
Proof.
  split.
  { intros Hf. unfold ensure_test_users. rewrite Hf. reflexivity. }
  intros Hf. rewrite (ensure_test_users_unfold w Hf).
  destruct (seed_attempts_cases (seq 0 5) w)
    as [(k & Hk & Hbefore & Hok & Heq)|[Hall Heq]];
    rewrite length_seq in *; rewrite Heq; eexists; (split; [reflexivity|]).
  - split; [|split].
    + intros _. exists k. auto.
    + intros _. reflexivity.
    + intros Hnone. specialize (Hnone k Hk). congruence.
  - assert (Hflag : _test_users_initialized (attempt_world 5 w) = false)
      by (rewrite attempt_world_flag; exact Hf).
    split; [|split].
    + intros Hset. congruence.
    + intros (k & Hk & Hok). specialize (Hall k Hk). congruence.
    + intros _. split; [exact Hflag|].
      rewrite (ensure_test_users_unfold _ Hflag).
      apply seed_attempts_connects. discriminate.
Qed.

(** The events of [k] failed attempts, call by call: each call opens one
    connection and is followed by one sleep of 2 s. *)
Lemma attempt_world_calls k w :
  ∃ failed, length failed = k
    ∧ trace (attempt_world k w) =
        trace w ++ concat (map (λ a, EvConnect :: a ++ [EvSleep 2]) failed)
    ∧ Forall (λ a, count_event is_connect a = 0 ∧ count_event is_sleep a = 0) failed.
Proof.
  revert w; induction k as [|k IH]; intros w; simpl.
  { exists []. rewrite app_nil_r. auto. }
  destruct (IH (after_failed_attempt w)) as (failed & Hlen & Htr & Hall).
  destruct (create_test_users_cases w)
    as (b & w' & tr1 & Hrun & _ & _ & Htr1 & Hc1 & Hs1 & _).
  exists (tr1 :: failed). split; [simpl; lia|]. split; [|constructor; auto].
  rewrite Htr. unfold after_failed_attempt. rewrite Hrun. simpl.
  rewrite Htr1, <- ?app_assoc. simpl. rewrite <- ?app_assoc. reflexivity.
Qed.

(** C8: one call of [ensure_test_users] returns, without raising, after at
    most five calls of [create_test_users] (each call opens one connection,
    and only a call does): a sleep of 2 s follows each failed call and
    nothing else, so there are at most five, and the call leaves at most
    thirty events. When every attempt fails the calls are exactly five.
    With the flag unset the calls are made one after the other for as long
    as they fail: the events of the call are those of the failed calls, each
    a connection, what the call did on it and the sleep of 2 s that follows
    it, then those of the call that succeeded, if one did; the first
    success ends the loop with the flag set, five failures end it with the
    flag unset. *)
Theorem ensure_test_users_bounded (w : world) :
  ∃ w' tr, ensure_test_users w = (Some tt, w')
    ∧ trace w' = trace w ++ tr
    ∧ count_event is_connect tr ≤ 5
    ∧ count_event is_sleep tr ≤ count_event is_connect tr
    ∧ Forall (λ e, is_sleep e = true → e = EvSleep 2) tr
    ∧ length tr ≤ 30
    ∧ (_test_users_initialized w = false → _test_users_initialized w' = false →
       count_event is_connect tr = 5 ∧ count_event is_sleep tr = 5)
    ∧ (_test_users_initialized w = false →
       ∃ (failed : list (list event)) (last : list event),
         tr = concat (map (λ a, EvConnect :: a ++ [EvSleep 2]) failed) ++ last
         ∧ Forall (λ a, count_event is_connect a = 0 ∧ count_event is_sleep a = 0)
             failed
         ∧ length failed ≤ 5
         ∧ (∀ j, j < length failed →
              fst (create_test_users (attempt_world j w)) = Some false)
         ∧ (length failed < 5 →
              fst (create_test_users (attempt_world (length failed) w)) = Some true
              ∧ _test_users_initialized w' = true
              ∧ ∃ a, last = EvConnect :: a
                  ∧ count_event is_connect a = 0 ∧ count_event is_sleep a = 0)
         ∧ (length failed = 5 → last = [] ∧ _test_users_initialized w' = false)).
Proof.
  destruct (_test_users_initialized w) eqn:Hf.
  { exists w, []. unfold ensure_test_users. rewrite Hf, app_nil_r. simpl.
    repeat split; auto; try lia; discriminate. }
  rewrite (ensure_test_users_unfold w Hf).
  destruct (seed_attempts_cases (seq 0 5) w)
    as [(k & Hk & Hbefore & Hok & ->)|[Hnone ->]]; rewrite length_seq in *.
  - destruct (attempt_world_trace k w) as (tr & Htr & Hc & Hs & Hl & Hall).
    destruct (attempt_world_calls k w) as (failed & Hlen & Hcalls & Hquiet).
    assert (Hshape : tr = concat (map (λ a, EvConnect :: a ++ [EvSleep 2]) failed)).
    { apply (app_inv_head (trace w)). rewrite <- Htr. exact Hcalls. }
    destruct (create_test_users_cases (attempt_world k w))
      as (b & w' & tr1 & Hrun & _ & _ & Htr1 & Hc1 & Hs1 & Hl1 & _).
    rewrite Hrun in Hok |- *. simpl in Hok.
    exists (set_initialized true w'), (tr ++ EvConnect :: tr1). simpl.
    split; [reflexivity|]. split; [rewrite Htr1, Htr, <- app_assoc; reflexivity|].
    rewrite !count_event_app, length_app. simpl.
    split; [lia|]. split; [lia|]. split; [|split; [lia|split; [discriminate|]]].
    + apply Forall_app. split; [exact Hall|]. constructor; [discriminate|].
      clear -Hs1. induction tr1 as [|e1 tr1 IH1]; constructor.
      * simpl in Hs1. destruct (is_sleep e1); [lia | discriminate].
      * apply IH1. simpl in Hs1. lia.
    + intros _. exists failed, (EvConnect :: tr1). rewrite Hlen.
      split; [rewrite Hshape; reflexivity|]. split; [exact Hquiet|].
      split; [lia|]. split; [exact Hbefore|]. split; [|lia].
      intros _. rewrite Hrun. simpl. split; [exact Hok|]. split; [reflexivity|].
      exists tr1. auto.
  - destruct (attempt_world_trace 5 w) as (tr & Htr & Hc & Hs & Hl & Hall).
    destruct (attempt_world_calls 5 w) as (failed & Hlen & Hcalls & Hquiet).
    assert (Hshape : tr = concat (map (λ a, EvConnect :: a ++ [EvSleep 2]) failed)).
    { apply (app_inv_head (trace w)). rewrite <- Htr. exact Hcalls. }
    assert (Hflag : _test_users_initialized (attempt_world 5 w) = false)
      by (rewrite attempt_world_flag; exact Hf).
    exists (attempt_world 5 w), tr.
    split; [reflexivity|]. split; [exact Htr|].
    split; [lia|]. split; [lia|]. split; [exact Hall|]. split; [lia|].
    split; [intros _ _; lia|].
    intros _. exists failed, []. rewrite Hlen, app_nil_r.
    split; [exact Hshape|]. split; [exact Hquiet|]. split; [lia|].
    split; [exact Hnone|]. split; [lia|]. intros _. split; [reflexivity|exact Hflag].
Qed.

End SeedProperties.

(** The statements on the sample environment. *)

Lemma create_test_users_seeds_empty_table_witness :
  users (db Sample.empty_world) = []
  ∧ healthy 5 Sample.empty_world = true
  ∧ (∃ w', create_test_users (H := Sample.externals) Sample.empty_world = (Some true, w')
       ∧ users (db w') = [Sample.yamada; Sample.sato]
       ∧ trace w' =
           [ EvConnect; EvSelectCount;
             EvInsert "山田太郎" "yamada@example.com";
             EvInsert "佐藤花子" "sato@example.com"; EvCommit ])
  ∧ users (db Sample.seeded_world) ≠ []
  ∧ (∃ b w' tr, create_test_users (H := Sample.externals) Sample.seeded_world = (Some b, w')
       ∧ db w' = db Sample.seeded_world
       ∧ trace w' = trace Sample.seeded_world ++ tr
       ∧ count_event is_insert tr = 0).
Proof.
  split; [reflexivity|]. split; [reflexivity|]. split; [|split].
  - exact (proj1 (create_test_users_seeds_empty_table (H := Sample.externals)
                    Sample.empty_world) eq_refl eq_refl).
  - discriminate.
  - apply (proj2 (create_test_users_seeds_empty_table (H := Sample.externals)
                    Sample.seeded_world)). discriminate.
Defined.

Lemma create_test_users_idempotent_witness :
  fst (create_test_users (H := Sample.externals) Sample.empty_world) = Some true
  ∧ users (db (snd (create_test_users (H := Sample.externals)
                 (snd (create_test_users (H := Sample.externals) Sample.empty_world)))))
    = users (db (snd (create_test_users (H := Sample.externals) Sample.empty_world))).
Proof.
  split; [reflexivity|].
  exact (proj1 (create_test_users_idempotent (H := Sample.externals) Sample.empty_world)
           eq_refl).
Defined.

Lemma ensure_test_users_flag_witness :
  _test_users_initialized Sample.seeded_world = true
  ∧ ensure_test_users (H := Sample.externals) Sample.seeded_world
    = (Some tt, Sample.seeded_world)
  ∧ _test_users_initialized Sample.down_world = false
  ∧ ∃ w', ensure_test_users (H := Sample.externals) Sample.down_world = (Some tt, w')
      ∧ _test_users_initialized w' = false.
Proof.
  split; [reflexivity|]. split.
  - exact (proj1 (ensure_test_users_flag (H := Sample.externals) Sample.seeded_world)
             eq_refl).
  - split; [reflexivity|].
    destruct (proj2 (ensure_test_users_flag (H := Sample.externals) Sample.down_world)
                eq_refl) as (w' & Hrun & _ & _ & Hfail).
    exists w'. split; [exact Hrun|]. apply Hfail.
    intros k Hk.
    destruct k as [|[|[|[|[|k]]]]]; [reflexivity..|lia].
Defined.

Lemma ensure_test_users_bounded_witness :
  _test_users_initialized Sample.flaky_world = false
  ∧ _test_users_initialized Sample.down_world = false
  ∧ (∃ w' failed last,
       ensure_test_users (H := Sample.externals) Sample.flaky_world = (Some tt, w')
       ∧ trace w' =
           concat (map (λ a, EvConnect :: a ++ [EvSleep 2]) failed) ++ last
       ∧ length failed ≤ 5)
  ∧ (∃ w' failed last,
       ensure_test_users (H := Sample.externals) Sample.down_world = (Some tt, w')
       ∧ trace w' =
           concat (map (λ a, EvConnect :: a ++ [EvSleep 2]) failed) ++ last
       ∧ length failed ≤ 5).
Proof.
  split; [reflexivity|]. split; [reflexivity|]. split.
  - destruct (ensure_test_users_bounded (H := Sample.externals) Sample.flaky_world)
      as (w' & tr & Hrun & Htr & _ & _ & _ & _ & _ & Hcalls).
    destruct (Hcalls eq_refl) as (failed & last & Hshape & _ & Hlen & _).
    exists w', failed, last. split; [exact Hrun|]. split; [|exact Hlen].
    rewrite Htr, Hshape. reflexivity.
  - destruct (ensure_test_users_bounded (H := Sample.externals) Sample.down_world)
      as (w' & tr & Hrun & Htr & _ & _ & _ & _ & _ & Hcalls).
    destruct (Hcalls eq_refl) as (failed & last & Hshape & _ & Hlen & _).
    exists w', failed, last. split; [exact Hrun|]. split; [|exact Hlen].
    rewrite Htr, Hshape. reflexivity.
Defined.

Section WebProperties.
Context `{Externals}.

(** ** The user store and the current user *)

Lemma seed_events_no_lookup tr :
  Forall (λ e, is_seed_event e = true) tr → count_event is_select_by_email tr = 0.
Proof.
  induction 1 as [|e tr He _ IH]; simpl; [reflexivity|].
  rewrite IH. destruct e; simpl in *; congruence.
Qed.

Lemma seed_attempts_events l w :
  ∃ w' tr, seed_attempts l w = (Some tt, w')
    ∧ trace w' = trace w ++ tr
    ∧ Forall (λ e, is_seed_event e = true) tr.
Proof.
  revert w; induction l as [|a l IH]; intros w; simpl.
  { exists w, []. rewrite app_nil_r. auto. }
  unfold bind at 1.
  destruct (create_test_users_cases w)
    as (b & w1 & tr1 & -> & _ & _ & Htr1 & _ & _ & _ & Hev & _).
  destruct b.
  - exists (set_initialized true w1), (EvConnect :: tr1). simpl.
    split; [reflexivity|]. split; [exact Htr1|]. constructor; auto.
  - destruct (IH (log (EvSleep 2) w1)) as (w' & tr & Hrun & Htr & Hall).
    exists w', (EvConnect :: tr1 ++ EvSleep 2 :: tr).
    unfold bind, sleep, modify. rewrite Hrun. split; [reflexivity|].
    split.
    + rewrite Htr. simpl. rewrite Htr1, <- !app_assoc. reflexivity.
    + constructor; [reflexivity|]. apply Forall_app. split; [exact Hev|].
      constructor; auto.
Qed.

(** The seeding step of a handler returns and leaves only seed events. *)
Lemma ensure_test_users_events w :
  ∃ w' tr, ensure_test_users w = (Some tt, w')
    ∧ trace w' = trace w ++ tr
    ∧ count_event is_select_by_email tr = 0.
Proof.
  unfold ensure_test_users. destruct (_test_users_initialized w).
  - exists w, []. rewrite app_nil_r. auto.
  - destruct (seed_attempts_events (seq 0 5) w) as (w' & tr & Hrun & Htr & Hall).
    exists w', tr. auto using seed_events_no_lookup.
Qed.

Ltac run_store :=
  cbv -[Z.add Datatypes.app find String.eqb Z.eqb check_password_hash];
  rewrite <- ?app_assoc.

(** [get_user_by_email] never raises and returns what [lookup_by_email] says. *)
Lemma get_user_by_email_spec email w :
  ∃ w', get_user_by_email email w = (Some (lookup_by_email email w), w')
    ∧ db w' = db w.
Proof.
  destruct w as [d p ini fs e tr].
  destruct fs as [|[] [|[] fs]]; eexists; split; run_store; reflexivity.
Qed.

(** [get_user_by_id] likewise, and it never looks an email up. *)
Lemma get_user_by_id_spec uid w :
  ∃ w' tr, get_user_by_id uid w = (Some (lookup_by_id uid w), w')
    ∧ db w' = db w
    ∧ _test_users_initialized w' = _test_users_initialized w
    ∧ trace w' = trace w ++ tr
    ∧ count_event is_select_by_email tr = 0.
Proof.
  destruct w as [d p ini fs e tr].
  destruct fs as [|[] [|[] fs]]; eexists _, _;
    (split; [run_store; reflexivity|]); simpl;
    (split; [reflexivity|]); (split; [reflexivity|]);
    (split; [rewrite <- ?app_assoc; reflexivity|]); reflexivity.
Qed.

Lemma current_user_spec s w :
  ∃ w' tr, current_user s w = (Some (active_user s w), w')
    ∧ db w' = db w
    ∧ _test_users_initialized w' = _test_users_initialized w
    ∧ trace w' = trace w ++ tr
    ∧ count_event is_select_by_email tr = 0.
Proof.
  unfold current_user, active_user, load_user. destruct (_user_id s) as [uid|].
  - apply get_user_by_id_spec.
  - exists w, []. rewrite app_nil_r. auto.
Qed.

(** A session without a user id is active for nobody, in any world. *)
Lemma active_user_anonymous s w : _user_id s = None → active_user s w = None.
Proof. unfold active_user. intros ->. reflexivity. Qed.

(** The user of an active session is a row of the table: the session holds
    its id, and the name and email shown are the row's. *)
Lemma active_user_row s w u :
  active_user s w = Some u →
  ∃ row, row ∈ users (db w)
    ∧ _user_id s = Some (row_id row)
    ∧ u = mk_User (row_id row) (row_name row) (row_email row).
Proof.
  unfold active_user, lookup_by_id. destruct (_user_id s) as [uid|]; [|discriminate].
  destruct (healthy 2 w); [|discriminate].
  destruct (find _ _) as [row|] eqn:Hfind; [|discriminate].
  intros [= <-]. apply find_some in Hfind as [Hin Heq].
  exists row. apply Z.eqb_eq in Heq. subst uid.
  split; [by apply list_elem_of_In|]. auto.
Qed.

(** ** The route handlers *)

Lemma app_dashboard r w :
  method r = GET → path r = "/dashboard" → app r w = dashboard r w.
Proof. intros Hm Hp. unfold app. rewrite Hp, Hm. reflexivity. Qed.

Lemma app_logout r w :
  method r = GET → path r = "/logout" → app r w = logout r w.
Proof. intros Hm Hp. unfold app. rewrite Hp, Hm. reflexivity. Qed.

Lemma app_login r w : path r = "/login" → app r w = login r w.
Proof. intros Hp. unfold app. rewrite Hp. reflexivity. Qed.

Lemma app_index r w : method r = GET → path r = "/" → app r w = index r w.
Proof. intros Hm Hp. unfold app. rewrite Hp, Hm. reflexivity. Qed.

(** What [dashboard] answers, by the user the session is active for. *)
Lemma dashboard_cases w r :
  ∃ w',
    dashboard r w =
      (Some
         match active_user (cookie r) w with
         | Some u => (Render (dashboard_html u), cookie r)
         | None => unauthorized r
         end, w').
Proof.
  unfold dashboard, login_required, bind.
  destruct (current_user_spec (cookie r) w) as (w' & tr & -> & _).
  destruct (active_user (cookie r) w); eauto.
Qed.

(** C2: a GET of /dashboard whose session is active for no user (it holds no
    user id, or the loader finds no user for the id) is answered by a
    redirect to the login page; one whose session is active for a user is
    answered by the dashboard page rendered for that user, whose name and
    email are those of the user's row. *)
Theorem dashboard_requires_session (w : world) (r : request) :
  method r = GET → path r = "/dashboard" →
  ∃ resp s' w', app r w = (Some (resp, s'), w')
    ∧ match active_user (cookie r) w with
      | None =>
          resp = Redirect "/login" (Some "/dashboard")
          ∧ _user_id s' = _user_id (cookie r)
      | Some u =>
          resp = Render (dashboard_html u)
          ∧ s' = cookie r
          ∧ ∃ row, row ∈ users (db w)
              ∧ _user_id (cookie r) = Some (row_id row)
              ∧ user_name u = row_name row
              ∧ user_email u = row_email row
      end.
Proof.
  intros Hm Hp. rewrite (app_dashboard r w Hm Hp).
  destruct (dashboard_cases w r) as (w' & ->).
  destruct (active_user (cookie r) w) as [u|] eqn:Hu.
  - eexists _, _, _. split; [reflexivity|]. split; [reflexivity|].
    split; [reflexivity|].
    destruct (active_user_row _ _ _ Hu) as (row & Hin & Hid & ->).
    exists row. auto.
  - eexists _, _, _. split; [reflexivity|]. unfold unauthorized. rewrite Hp.
    split; reflexivity.
Qed.

(** C4: a GET of /logout by a user with an active session is answered by a
    redirect to the home page, with a session that holds no user id any
    more; a later GET of /dashboard that presents this session is answered,
    in whatever state the application then is, by a redirect to the login
    page. *)
Theorem logout_destroys_session (w : world) (r : request) (u : User) :
  method r = GET → path r = "/logout" → active_user (cookie r) w = Some u →
  ∃ s' w', app r w = (Some (Redirect "/" None, s'), w')
    ∧ _user_id s' = None
    ∧ ∀ w2 r2, method r2 = GET → path r2 = "/dashboard" → cookie r2 = s' →
        ∃ s2 w3,
          app r2 w2 = (Some (Redirect "/login" (Some "/dashboard"), s2), w3)
          ∧ _user_id s2 = None.
Proof.
  intros Hm Hp Hu. rewrite (app_logout r w Hm Hp).
  unfold logout, login_required, bind.
  destruct (current_user_spec (cookie r) w) as (w' & tr & -> & _).
  rewrite Hu. eexists _, _. split; [reflexivity|]. split; [reflexivity|].
  intros w2 r2 Hm2 Hp2 Hc2. rewrite (app_dashboard r2 w2 Hm2 Hp2).
  destruct (dashboard_cases w2 r2) as (w3 & ->).
  rewrite active_user_anonymous by (rewrite Hc2; reflexivity).
  unfold unauthorized. rewrite Hp2, Hc2. eauto.
Qed.

(** C10: a GET of / and a GET or POST of /login by a requester whose session
    is active when the handler looks at it (after the seeding step) are
    answered by a redirect to /dashboard: no page is rendered, the session is
    left as it was, and no user is looked up by email. *)
Theorem authenticated_redirects_to_dashboard (w : world) (r : request) (u : User) :
  (method r = GET ∧ path r = "/") ∨ path r = "/login" →
  active_user (cookie r) (snd (ensure_test_users w)) = Some u →
  ∃ w' tr, app r w = (Some (Redirect "/dashboard" None, cookie r), w')
    ∧ trace w' = trace w ++ tr
    ∧ count_event is_select_by_email tr = 0.
Proof.
  intros Hroute Hu.
  destruct (ensure_test_users_events w) as (w1 & tr1 & Hseed & Htr1 & Hc1).
  rewrite Hseed in Hu. simpl in Hu.
  destruct (current_user_spec (cookie r) w1) as (w2 & tr2 & Hcur & _ & _ & Htr2 & Hc2).
  rewrite Hu in Hcur.
  assert (Htr : trace w2 = trace w ++ (tr1 ++ tr2))
    by (rewrite Htr2, Htr1, app_assoc; reflexivity).
  assert (Hc : count_event is_select_by_email (tr1 ++ tr2) = 0)
    by (rewrite count_event_app; lia).
  destruct Hroute as [[Hm Hp]|Hp].
  - rewrite (app_index r w Hm Hp). unfold index, bind. rewrite Hseed, Hcur.
    exists w2, (tr1 ++ tr2). auto.
  - rewrite (app_login r w Hp). unfold login, bind. rewrite Hseed, Hcur.
    exists w2, (tr1 ++ tr2). auto.
Qed.

(** ** Login *)

Lemma validate_on_submit_form r :
  snd (validate_on_submit r) = (if is_submitted r then validate r else unvalidated r).
Proof. unfold validate_on_submit. destruct (is_submitted r); reflexivity. Qed.

Lemma validate_on_submit_email r : email_data (snd (validate_on_submit r)) = form_email r.
Proof. rewrite validate_on_submit_form. destruct (is_submitted r); reflexivity. Qed.

Lemma validate_on_submit_password r :
  password_data (snd (validate_on_submit r)) = form_password r.
Proof. rewrite validate_on_submit_form. destruct (is_submitted r); reflexivity. Qed.

(** What [login] answers, by the outcome of its three tests. *)
Lemma login_cases w r :
  ∃ w',
    login r w =
      (Some
         match active_user (cookie r) (snd (ensure_test_users w)) with
         | Some _ => (Redirect "/dashboard" None, cookie r)
         | None =>
             if fst (validate_on_submit r) then
               match credentials_accepted r (login_world r w) with
               | Some u =>
                   (Redirect "/dashboard" None,
                    flash "ログインに成功しました。" "success"
                      (login_user (mk_User (row_id u) (row_name u) (row_email u))
                         (cookie r)))
               | None =>
                   (Render (login_html (snd (validate_on_submit r))),
                    flash login_failed_message "error" (cookie r))
               end
             else (Render (login_html (snd (validate_on_submit r))), cookie r)
         end, w').
Proof.
  unfold login, login_world, bind.
  destruct (ensure_test_users_events w) as (w1 & tr1 & -> & _). simpl.
  destruct (current_user_spec (cookie r) w1) as (w2 & tr2 & -> & _). simpl.
  destruct (active_user (cookie r) w1); [eauto|].
  pose proof (validate_on_submit_email r) as He.
  pose proof (validate_on_submit_password r) as Hpw.
  destruct (validate_on_submit r) as [valid form]. simpl in *.
  destruct valid; [|eauto].
  destruct (get_user_by_email_spec (email_data form) w2) as (w3 & -> & _).
  unfold credentials_accepted. rewrite He, Hpw.
  destruct (lookup_by_email (form_email r) w2) as [u|]; [|eauto].
  destruct (check_password_hash _ _); eauto.
Qed.

Lemma login_fails_with_rejected c r w :
  login_fails_with c r w → credentials_accepted r w = None.
Proof.
  unfold credentials_accepted, lookup_by_email.
  destruct c; simpl.
  - intros [-> ->]. reflexivity.
  - intros [-> (u & -> & ->)]. reflexivity.
  - intros ->. reflexivity.
Qed.

(** C1, as the code has it: a POST of /login by a requester whose session is
    not active, with a form that passes validation (CSRF token, both fields
    filled in, a well-formed email), for which the lookup by email returns a
    user whose stored hash the password verifies against, establishes a
    session for that user and is answered by a redirect to the dashboard.
    Whenever the credentials are not accepted (no such user, wrong password,
    failed lookup), whatever the request, the user id of the session
    is left as it was: no session is established. *)
Theorem login_establishes_session (w : world) (r : request) :
  path r = "/login" →
  ∃ resp s' w', app r w = (Some (resp, s'), w')
    ∧ (method r = POST →
       active_user (cookie r) (snd (ensure_test_users w)) = None →
       fst (validate_on_submit r) = true →
       ∀ u, credentials_accepted r (login_world r w) = Some u →
         resp = Redirect "/dashboard" None ∧ _user_id s' = Some (row_id u))
    ∧ (credentials_accepted r (login_world r w) = None →
       _user_id s' = _user_id (cookie r)).
Proof.
  intros Hp. rewrite (app_login r w Hp).
  destruct (login_cases w r) as (w' & ->).
  destruct (active_user _ _) as [a|].
  { eexists _, _, _. split; [reflexivity|]. split; [discriminate|reflexivity]. }
  destruct (fst (validate_on_submit r)).
  - destruct (credentials_accepted _ _) as [u|].
    + eexists _, _, _. split; [reflexivity|]. split; [|discriminate].
      intros _ _ _ u' [= <-]. split; reflexivity.
    + eexists _, _, _. split; [reflexivity|]. split; [|reflexivity].
      intros _ _ _ u' [=].
  - eexists _, _, _. split; [reflexivity|]. split; [discriminate|reflexivity].
Qed.

(** C3, as the code has it: a POST of /login by a requester whose session is
    not active, with a form that passes validation, that is turned down at
    the credential check is answered by the login form as submitted and one
    flashed message, the same whatever the cause (no user with that email,
    wrong password for an existing user, database error during the lookup)
    and whatever the state of the user table: two such answers to one
    request are equal. *)
Theorem login_failure_is_generic (w1 w2 : world) (r : request) (c1 c2 : failure_cause) :
  path r = "/login" → method r = POST → fst (validate_on_submit r) = true →
  active_user (cookie r) (snd (ensure_test_users w1)) = None →
  active_user (cookie r) (snd (ensure_test_users w2)) = None →
  login_fails_with c1 r (login_world r w1) →
  login_fails_with c2 r (login_world r w2) →
  fst (app r w1) =
    Some (Render (login_html (validate r)),
          flash login_failed_message "error" (cookie r))
  ∧ fst (app r w2) = fst (app r w1).
Proof.
  intros Hp Hm Hv Ha1 Ha2 Hc1 Hc2.
  assert (Hone : ∀ w c,
    active_user (cookie r) (snd (ensure_test_users w)) = None →
    login_fails_with c r (login_world r w) →
    fst (app r w) =
      Some (Render (login_html (validate r)),
            flash login_failed_message "error" (cookie r))).
  { intros w c Ha Hc. rewrite (app_login r w Hp).
    destruct (login_cases w r) as (w' & ->).
    rewrite Ha, Hv, (login_fails_with_rejected _ _ _ Hc), validate_on_submit_form.
    unfold is_submitted. rewrite Hm. reflexivity. }
  rewrite (Hone w1 c1 Ha1 Hc1), (Hone w2 c2 Ha2 Hc2). auto.
Qed.

(** The answer to a login that is not accepted does not depend on the
    database at all: for a requester whose session holds no user id, it is a
    function of the request, whether the form was turned down by validation
    or the credentials by the check. *)
Lemma rejected_login_reveals_nothing (w1 w2 : world) (r : request) :
  path r = "/login" → _user_id (cookie r) = None →
  credentials_accepted r (login_world r w1) = None →
  credentials_accepted r (login_world r w2) = None →
  fst (app r w1) = fst (app r w2).
Proof.
  intros Hp Hanon H1 H2. rewrite !app_login by exact Hp.
  destruct (login_cases w1 r) as (w1' & ->).
  destruct (login_cases w2 r) as (w2' & ->).
  rewrite !active_user_anonymous by exact Hanon. rewrite H1, H2. reflexivity.
Qed.

End WebProperties.

(** The statements on the sample environment. *)

Lemma dashboard_requires_session_witness :
  (∃ w', app (H := Sample.externals)
           (Sample.get_page Sample.yamada_session "/dashboard") Sample.seeded_world
         = (Some (Render (dashboard_html (mk_User 1 "山田太郎" "yamada@example.com")),
                  Sample.yamada_session), w'))
  ∧ (∃ s' w', app (H := Sample.externals)
                (Sample.get_page Sample.anonymous "/dashboard") Sample.seeded_world
              = (Some (Redirect "/login" (Some "/dashboard"), s'), w')).
Proof.
  split.
  - destruct (dashboard_requires_session (H := Sample.externals) Sample.seeded_world
                (Sample.get_page Sample.yamada_session "/dashboard") eq_refl eq_refl)
      as (resp & s' & w' & Hrun & Hcase).
    cbn in Hcase. destruct Hcase as (-> & -> & _). exists w'. exact Hrun.
  - destruct (dashboard_requires_session (H := Sample.externals) Sample.seeded_world
                (Sample.get_page Sample.anonymous "/dashboard") eq_refl eq_refl)
      as (resp & s' & w' & Hrun & Hcase).
    cbn in Hcase. destruct Hcase as (-> & _). exists s', w'. exact Hrun.
Defined.

Lemma logout_destroys_session_witness :
  ∃ s' w', app (H := Sample.externals)
             (Sample.get_page Sample.yamada_session "/logout") Sample.seeded_world
           = (Some (Redirect "/" None, s'), w')
    ∧ _user_id s' = None
    ∧ ∃ s2 w3, app (H := Sample.externals) (Sample.get_page s' "/dashboard") w'
               = (Some (Redirect "/login" (Some "/dashboard"), s2), w3).
Proof.
  destruct (logout_destroys_session (H := Sample.externals) Sample.seeded_world
              (Sample.get_page Sample.yamada_session "/logout")
              (mk_User 1 "山田太郎" "yamada@example.com") eq_refl eq_refl eq_refl)
    as (s' & w' & Hrun & Hid & Hnext).
  exists s', w'. split; [exact Hrun|]. split; [exact Hid|].
  destruct (Hnext w' (Sample.get_page s' "/dashboard") eq_refl eq_refl eq_refl)
    as (s2 & w3 & Hrun2 & _).
  exists s2, w3. exact Hrun2.
Defined.

Lemma authenticated_redirects_to_dashboard_witness :
  (∃ w', app (H := Sample.externals)
           (Sample.post_login Sample.yamada_session "sato@example.com" "password123")
           Sample.seeded_world
         = (Some (Redirect "/dashboard" None, Sample.yamada_session), w'))
  ∧ (∃ w', app (H := Sample.externals)
             (Sample.get_page Sample.yamada_session "/") Sample.seeded_world
           = (Some (Redirect "/dashboard" None, Sample.yamada_session), w')).
Proof.
  split.
  - destruct (authenticated_redirects_to_dashboard (H := Sample.externals)
                Sample.seeded_world
                (Sample.post_login Sample.yamada_session "sato@example.com" "password123")
                (mk_User 1 "山田太郎" "yamada@example.com")
                (or_intror eq_refl) eq_refl) as (w' & tr & Hrun & _).
    exists w'. exact Hrun.
  - destruct (authenticated_redirects_to_dashboard (H := Sample.externals)
                Sample.seeded_world (Sample.get_page Sample.yamada_session "/")
                (mk_User 1 "山田太郎" "yamada@example.com")
                (or_introl (conj eq_refl eq_refl)) eq_refl) as (w' & tr & Hrun & _).
    exists w'. exact Hrun.
Defined.

(** C1 fails as stated: a requester logged in as 山田太郎 who posts the email
    and the password of 佐藤花子, which verify, is redirected to the dashboard
    with the session still that of 山田太郎. *)
Lemma login_while_logged_in_keeps_session :
  let r := Sample.post_login Sample.yamada_session "sato@example.com" "password123" in
  find (λ u, String.eqb (row_email u) (form_email r)) (users (db Sample.seeded_world))
    = Some Sample.sato
  ∧ check_password_hash (Externals := Sample.externals)
      (row_password_hash Sample.sato) (form_password r) = true
  ∧ fst (app (H := Sample.externals) r Sample.seeded_world)
    = Some (Redirect "/dashboard" None, mk_session (Some 1%Z) [])
  ∧ Some 1%Z ≠ Some (row_id Sample.sato).
Proof. vm_compute. repeat split; try reflexivity. discriminate. Qed.

Lemma login_establishes_session_witness :
  let r := Sample.post_login Sample.anonymous "sato@example.com" "password123" in
  ∃ resp s' w', app (H := Sample.externals) r Sample.seeded_world = (Some (resp, s'), w')
    ∧ resp = Redirect "/dashboard" None
    ∧ _user_id s' = Some 2%Z.
Proof.
  intros r.
  destruct (login_establishes_session (H := Sample.externals) Sample.seeded_world r eq_refl)
    as (resp & s' & w' & Hrun & Hok & _).
  exists resp, s', w'. split; [exact Hrun|].
  exact (Hok eq_refl eq_refl eq_refl Sample.sato eq_refl).
Defined.

(** C3 fails as stated: a POST of /login with the two fields empty fails
    without any flashed message; the form comes back with its field
    errors. *)
Lemma login_validation_failure_has_no_generic_message :
  fst (app (H := Sample.externals) (Sample.post_login Sample.anonymous "" "")
         Sample.seeded_world)
  = Some (Render (login_html (mk_LoginForm "" "" [] [err_required] [err_required])),
          mk_session None []).
Proof. vm_compute. reflexivity. Qed.

Lemma login_failure_is_generic_witness :
  let r := Sample.post_login Sample.anonymous "yamada@example.com" "letmein" in
  let no_yamada := mk_world (mk_db [Sample.sato] 3) [] true [] 2 [] in
  let db_down := set_faults [true] Sample.seeded_world in
  let answer :=
    Some (Render (login_html (mk_LoginForm "yamada@example.com" "letmein" [] [] [])),
          mk_session None [("error", login_failed_message)]) in
  fst (app (H := Sample.externals) r Sample.seeded_world) = answer
  ∧ fst (app (H := Sample.externals) r no_yamada) = answer
  ∧ fst (app (H := Sample.externals) r db_down) = answer.
Proof.
  intros r no_yamada db_down answer.
  destruct (login_failure_is_generic (H := Sample.externals)
              Sample.seeded_world no_yamada r wrong_password no_such_user
              eq_refl eq_refl eq_refl eq_refl eq_refl
              (conj eq_refl (ex_intro _ Sample.yamada (conj eq_refl eq_refl)))
              (conj eq_refl eq_refl)) as [H1 H2].
  destruct (login_failure_is_generic (H := Sample.externals)
              Sample.seeded_world db_down r wrong_password lookup_error
              eq_refl eq_refl eq_refl eq_refl eq_refl
              (conj eq_refl (ex_intro _ Sample.yamada (conj eq_refl eq_refl)))
              eq_refl) as [_ H3].
  split; [exact H1|]. split; [rewrite H2; exact H1 | rewrite H3; exact H1].
Defined.

(** ** The application on the sample environment *)

(** The first request to a fresh process seeds the table, then serves the
    login: the demo user's password is accepted. *)
Example first_login_seeds_and_succeeds :
  app (H := Sample.externals)
    (Sample.post_login Sample.anonymous "yamada@example.com" "password123")
    Sample.empty_world
  = (Some (Redirect "/dashboard" None,
           mk_session (Some 1%Z) [("success", "ログインに成功しました。")]),
     mk_world (mk_db [Sample.yamada; Sample.sato] 3) [] true [] 2
       [ EvConnect; EvSelectCount;
         EvInsert "山田太郎" "yamada@example.com";
         EvInsert "佐藤花子" "sato@example.com"; EvCommit;
         EvConnect; EvSelectByEmail "yamada@example.com" ]).
Proof. vm_compute. reflexivity. Qed.

(** A database that is down for the first attempt: the second one seeds. *)
Example seeding_retries_after_a_failure :
  ensure_test_users (H := Sample.externals) Sample.flaky_world
  = (Some tt,
     mk_world (mk_db [Sample.yamada; Sample.sato] 3) [] true [] 2
       [ EvConnect; EvSleep 2; EvConnect; EvSelectCount;
         EvInsert "山田太郎" "yamada@example.com";
         EvInsert "佐藤花子" "sato@example.com"; EvCommit ]).
Proof. vm_compute. reflexivity. Qed.

(** A database that stays down: five attempts, five sleeps, no flag. *)
Example seeding_gives_up_after_five_attempts :
  ensure_test_users (H := Sample.externals) Sample.down_world
  = (Some tt,
     mk_world (mk_db [] 1) [] false [] 0
       [ EvConnect; EvSleep 2; EvConnect; EvSleep 2; EvConnect; EvSleep 2;
         EvConnect; EvSleep 2; EvConnect; EvSleep 2 ]).
Proof. vm_compute. reflexivity. Qed.

(** An invalid email is turned down by the form, before any lookup. *)
Example malformed_email_is_not_looked_up :
  app (H := Sample.externals)
    (Sample.post_login Sample.anonymous "invalid_email_format" "password123")
    Sample.seeded_world
  = (Some (Render (login_html
                     (mk_LoginForm "invalid_email_format" "password123"
                        [] [err_invalid_email] [])),
           Sample.anonymous),
     Sample.seeded_world).
Proof. vm_compute. reflexivity. Qed.

Section ConcurrentProperties.
Context `{Externals}.
Import Concurrent.

(** ** Concurrent requests *)

Lemma after_insert_holds k todo tx : holds_lock (after_insert k todo tx) = true.
Proof. destruct todo; reflexivity. Qed.

Lemma after_sleep_holds k : holds_lock (after_sleep k) = true.
Proof. unfold after_sleep. destruct (S k <? 5); reflexivity. Qed.

Lemma after_sleep_tx_ok σ k : tx_ok σ (after_sleep k).
Proof. unfold after_sleep. destruct (S k <? 5); exact I. Qed.

Lemma after_insert_tx_ok σ k todo tx :
  table σ = [] → names tx ++ map (λ u, (u.1.1, u.1.2)) todo = demo_names →
  tx_ok σ (after_insert k todo tx).
Proof.
  intros Ht Hn. destruct todo as [|u todo]; simpl; [|auto].
  split; [exact Ht|]. simpl in Hn. rewrite app_nil_r in Hn. exact Hn.
Qed.

(** A step of thread [i] that changes the table or the lock is made inside
    the with block or enters it; a step made outside leaves both alone. *)
Lemma thread_step_lock i σ p σ' p' :
  thread_step i σ p σ' p' →
  (holds_lock p = true → lock σ = Some i) →
  (holds_lock p' = true → lock σ' = Some i)
  ∧ (holds_lock p = false → holds_lock p' = false → lock σ' = lock σ)
  ∧ (holds_lock p = false → holds_lock p' = true → lock σ = None)
  ∧ (holds_lock p = true → holds_lock p' = false → lock σ' = None)
  ∧ (holds_lock p = false → table σ' = table σ).
Proof.
  intros Hstep Hheld.
  destruct Hstep; simpl in *;
    rewrite ?after_insert_holds, ?after_sleep_holds;
    repeat split; intros; auto; try discriminate.
Qed.

(** The table changes only at a commit. *)
Lemma thread_step_table i σ p σ' p' :
  thread_step i σ p σ' p' →
  table σ' = table σ ∨ ∃ k tx, p = at_commit k tx ∧ table σ' = table σ ++ tx.
Proof. destruct 1; simpl; eauto. Qed.

Lemma thread_step_tx_ok i σ p σ' p' :
  thread_step i σ p σ' p' → tx_ok σ p → tx_ok σ' p'.
Proof.
  destruct 1; simpl; intros Hok; auto using after_sleep_tx_ok.
  destruct Hok as [Ht Hn]. apply after_insert_tx_ok; [exact Ht|].
  unfold names in *. rewrite map_app, <- app_assoc. exact Hn.
Qed.

Lemma tx_ok_same_table σ σ' p : table σ' = table σ → tx_ok σ p → tx_ok σ' p.
Proof. intros Ht. destruct p; simpl; rewrite ?Ht; auto. Qed.

Lemma tx_ok_outside σ σ' p : inserting p = false → tx_ok σ p → tx_ok σ' p.
Proof. destruct p; simpl; auto; discriminate. Qed.

Lemma inserting_holds p : inserting p = true → holds_lock p = true.
Proof. destruct p; simpl; auto. Qed.

Lemma invariant_initial t i : invariant t (initial t i).
Proof.
  unfold invariant, initial; simpl. split; [|split].
  - intros j p Hj. rewrite lookup_nil in Hj. discriminate.
  - intros j p Hj. rewrite lookup_nil in Hj. discriminate.
  - left. reflexivity.
Qed.

Lemma invariant_step t s s' : invariant t s → step s s' → invariant t s'.
Proof.
  intros (Hlock & Htx & Htable) Hstep.
  destruct Hstep as [σ ts i p σ' p' Hi Hstep|σ ts]; simpl in *.
  - pose proof (thread_step_lock _ _ _ _ _ Hstep (Hlock i p Hi))
      as (Hin & Hout & Henter & Hleave & Hkeep).
    assert (Hother : ∀ j q, i ≠ j → ts !! j = Some q → holds_lock q = true →
              lock σ' = lock σ ∧ table σ' = table σ).
    { intros j q Hne Hj Hq. pose proof (Hlock j q Hj Hq) as Hlj.
      destruct (holds_lock p) eqn:Hp.
      - pose proof (Hlock i p Hi Hp). congruence.
      - destruct (holds_lock p') eqn:Hp'.
        + rewrite Henter in Hlj by auto. discriminate.
        + split; [apply Hout; auto | apply Hkeep; auto]. }
    split; [|split].
    + intros j q Hj Hq. apply list_lookup_insert_Some in Hj
        as [(-> & <- & _)|(Hne & Hj)]; [auto|].
      destruct (Hother j q Hne Hj Hq) as [Hl _]. simpl. rewrite Hl. eauto.
    + intros j q Hj. apply list_lookup_insert_Some in Hj
        as [(-> & <- & _)|(Hne & Hj)].
      * eapply thread_step_tx_ok; eauto.
      * destruct (inserting q) eqn:Hq.
        -- destruct (Hother j q Hne Hj (inserting_holds q Hq)) as [_ Ht].
           eapply tx_ok_same_table; eauto.
        -- eapply tx_ok_outside; eauto.
    + destruct (thread_step_table _ _ _ _ _ Hstep) as [Ht|(k & tx & -> & Ht)].
      * unfold table_ok in *. simpl. rewrite Ht. exact Htable.
      * destruct (Htx i _ Hi) as [Hempty Hnames].
        unfold table_ok in *. simpl. rewrite Ht, Hempty. simpl.
        destruct Htable as [Ht0|[Ht0 Hn]].
        -- right. split; [congruence | exact Hnames].
        -- rewrite Hempty in Hn. discriminate.
  - split; [|split]; [| |exact Htable].
    + intros j q Hj Hq. apply lookup_app_Some in Hj as [Hj|[_ Hj]]; [eauto|].
      apply list_lookup_singleton_Some in Hj as [_ <-]. discriminate.
    + intros j q Hj. apply lookup_app_Some in Hj as [Hj|[_ Hj]]; [eauto|].
      apply list_lookup_singleton_Some in Hj as [_ <-]. exact I.
Qed.

Lemma invariant_reachable t i s : rtc step (initial t i) s → invariant t s.
Proof.
  intros Hreach. eapply (rtc_ind_r (invariant t)); [|intros s1 s2 _ Hstep IH|exact Hreach].
  - apply invariant_initial.
  - eapply invariant_step; eassumption.
Qed.

(** C9: in every state the threads of one process can reach, in any
    interleaving and whatever the database calls do, at most one thread is
    inside the [with _test_users_lock] block, hence at most one between the
    count and the commit of the seed routine; and the table is as the process
    found it or, if it found it empty, holds the two demo users once each. *)
Theorem seeding_is_exclusive (t : list user_row) (i0 : Z) (s : Concurrent.state) :
  rtc Concurrent.step (Concurrent.initial t i0) s →
  (∀ i j p q,
     s.2 !! i = Some p → s.2 !! j = Some q →
     Concurrent.holds_lock p = true → Concurrent.holds_lock q = true → i = j)
  ∧ (∀ i j p q,
     s.2 !! i = Some p → s.2 !! j = Some q →
     Concurrent.inserting p = true → Concurrent.inserting q = true → i = j)
  ∧ (Concurrent.table s.1 = t
     ∨ (t = [] ∧ Concurrent.names (Concurrent.table s.1) = Concurrent.demo_names)).
Proof.
  intros Hreach. destruct (invariant_reachable t i0 s Hreach) as (Hlock & _ & Htable).
  assert (Hexcl : ∀ i j p q,
     s.2 !! i = Some p → s.2 !! j = Some q →
     holds_lock p = true → holds_lock q = true → i = j).
  { intros i j p q Hi Hj Hp Hq.
    pose proof (Hlock i p Hi Hp). pose proof (Hlock j q Hj Hq). congruence. }
  split; [exact Hexcl|]. split; [|exact Htable].
  intros i j p q Hi Hj Hp Hq. eauto using inserting_holds.
Qed.

End ConcurrentProperties.

(** Two first requests at once, on the sample environment: both find the flag
    unset, the first takes the lock, finds the table empty, inserts the two
    demo users and commits, while the second waits for the lock. *)
Lemma seeding_is_exclusive_witness :
  ∃ s, rtc (Concurrent.step (H := Sample.externals)) (Concurrent.initial [] 1) s
    ∧ s.2 = [Concurrent.at_set_flag; Concurrent.at_acquire]
    ∧ Concurrent.table s.1 = [Sample.yamada; Sample.sato]
    ∧ ∀ i j p q,
        s.2 !! i = Some p → s.2 !! j = Some q →
        Concurrent.holds_lock p = true → Concurrent.holds_lock q = true → i = j.
Proof.
  assert (Hreach :
    rtc (Concurrent.step (H := Sample.externals)) (Concurrent.initial [] 1)
      (Concurrent.mk_shared [Sample.yamada; Sample.sato] 3 false (Some 0),
       [Concurrent.at_set_flag; Concurrent.at_acquire])).
  { eapply rtc_l; [apply Concurrent.step_request|]. simpl.
    eapply rtc_l; [apply Concurrent.step_request|]. simpl.
    eapply rtc_l; [eapply (Concurrent.step_thread _ _ 0);
                     [reflexivity | apply Concurrent.step_check_unset; reflexivity]|]. simpl.
    eapply rtc_l; [eapply (Concurrent.step_thread _ _ 1);
                     [reflexivity | apply Concurrent.step_check_unset; reflexivity]|]. simpl.
    eapply rtc_l; [eapply (Concurrent.step_thread _ _ 0);
                     [reflexivity | apply Concurrent.step_acquire; reflexivity]|]. simpl.
    eapply rtc_l; [eapply (Concurrent.step_thread _ _ 0);
                     [reflexivity | apply Concurrent.step_recheck_unset; reflexivity]|]. simpl.
    eapply rtc_l; [eapply (Concurrent.step_thread _ _ 0);
                     [reflexivity | apply Concurrent.step_connect]|]. simpl.
    eapply rtc_l; [eapply (Concurrent.step_thread _ _ 0);
                     [reflexivity | apply Concurrent.step_count_empty; reflexivity]|]. simpl.
    eapply rtc_l; [eapply (Concurrent.step_thread _ _ 0);
                     [reflexivity | apply (Concurrent.step_insert _ _ _ _ _ _ _ _ 0)]|]. simpl.
    eapply rtc_l; [eapply (Concurrent.step_thread _ _ 0);
                     [reflexivity | apply (Concurrent.step_insert _ _ _ _ _ _ _ _ 1)]|]. simpl.
    eapply rtc_l; [eapply (Concurrent.step_thread _ _ 0);
                     [reflexivity | apply Concurrent.step_commit]|]. simpl.
    apply rtc_refl. }
  eexists. split; [exact Hreach|]. split; [reflexivity|]. split; [reflexivity|].
  exact (proj1 (seeding_is_exclusive (H := Sample.externals) [] 1 _ Hreach)).
Defined.

(** * Further properties of the code *)

Section StoreProperties.
Context `{Externals}.

(** ** The user store *)

Ltac run_lookup :=
  cbv -[Z.add Datatypes.app find String.eqb Z.eqb check_password_hash healthy];
  rewrite <- ?app_assoc.

Lemma get_user_by_email_cases email w :
  ∃ w' tr, get_user_by_email email w = (Some (lookup_by_email email w), w')
    ∧ db w' = db w
    ∧ _test_users_initialized w' = _test_users_initialized w
    ∧ trace w' = trace w ++ tr
    ∧ Forall (λ e, is_seed_event e = true ∨ is_select_by_email e = true) tr
    ∧ count_event is_insert tr = 0
    ∧ count_event is_sleep tr = 0.
Proof.
  destruct w as [d p ini fs e tr].
  destruct fs as [|[] [|[] fs]]; eexists _, _;
    (split; [cbv -[Z.add Datatypes.app find String.eqb Z.eqb]; reflexivity|]);
    simpl; (split; [reflexivity|]); (split; [reflexivity|]);
    (split; [rewrite <- ?app_assoc; reflexivity|]);
    (split; [repeat constructor; simpl; auto|]); split; reflexivity.
Qed.

(** X1: [get_user_by_email] never raises and never writes. A row it returns is
    a row of the table with the email asked for; when the connection and the
    query succeed it returns nothing only if no row has that email; when one
    of them raises it returns nothing. *)
Theorem get_user_by_email_sound_and_complete (email : string) (w : world) :
  ∃ r w', get_user_by_email email w = (Some r, w')
    ∧ db w' = db w
    ∧ (∀ u, r = Some u → u ∈ users (db w) ∧ row_email u = email)
    ∧ (healthy 2 w = true → r = None →
       ∀ u, u ∈ users (db w) → row_email u ≠ email)
    ∧ (healthy 2 w = false → r = None).
Proof.
  destruct (get_user_by_email_cases email w) as (w' & tr & Hrun & Hdb & _).
  exists (lookup_by_email email w), w'. split; [exact Hrun|]. split; [exact Hdb|].
  unfold lookup_by_email. destruct (healthy 2 w); [|repeat split; intros; congruence].
  split; [|split; [|discriminate]].
  - intros u Hu. apply find_some in Hu as [Hin Heq].
    split; [by apply list_elem_of_In | by apply String.eqb_eq].
  - intros _ Hnone u Hin Heq.
    apply list_elem_of_In in Hin.
    pose proof (find_none _ _ Hnone u Hin) as Hf. simpl in Hf.
    apply String.eqb_neq in Hf. contradiction.
Qed.

(** X2: [get_user_by_id] never raises and never writes. The user it returns
    carries the id, name and email of a row of the table with the id asked
    for; when the connection and the query succeed it returns nothing only if
    no row has that id; when one of them raises it returns nothing. *)
Theorem get_user_by_id_sound_and_complete (uid : Z) (w : world) :
  ∃ r w', get_user_by_id uid w = (Some r, w')
    ∧ db w' = db w
    ∧ (∀ u, r = Some u →
       user_id u = uid
       ∧ ∃ row, row ∈ users (db w) ∧ row_id row = uid
           ∧ user_name u = row_name row ∧ user_email u = row_email row)
    ∧ (healthy 2 w = true → r = None →
       ∀ row, row ∈ users (db w) → row_id row ≠ uid)
    ∧ (healthy 2 w = false → r = None).
Proof.
  destruct (get_user_by_id_spec uid w) as (w' & tr & Hrun & Hdb & _).
  exists (lookup_by_id uid w), w'. split; [exact Hrun|]. split; [exact Hdb|].
  unfold lookup_by_id. destruct (healthy 2 w); [|repeat split; intros; congruence].
  destruct (find _ _) as [row|] eqn:Hfind.
  - apply find_some in Hfind as [Hin Heq]. apply Z.eqb_eq in Heq.
    split; [|split; discriminate].
    intros u [= <-]. simpl. split; [exact Heq|].
    exists row. split; [by apply list_elem_of_In|]. auto.
  - split; [discriminate|]. split; [|discriminate].
    intros _ _ row Hin Heq. apply list_elem_of_In in Hin.
    pose proof (find_none _ _ Hfind row Hin) as Hf. simpl in Hf.
    apply Z.eqb_neq in Hf. contradiction.
Qed.

End StoreProperties.

Lemma get_user_by_email_sound_and_complete_witness :
  ∃ w', get_user_by_email "sato@example.com" Sample.seeded_world
        = (Some (Some Sample.sato), w')
    ∧ Sample.sato ∈ users (db Sample.seeded_world)
    ∧ row_email Sample.sato = "sato@example.com".
Proof.
  destruct (get_user_by_email_sound_and_complete
              "sato@example.com" Sample.seeded_world) as (r & w' & Hrun & _ & Hsound & _).
  assert (r = Some Sample.sato) as ->.
  { vm_compute in Hrun. injection Hrun as Hr _. rewrite <- Hr. reflexivity. }
  exists w'. split; [exact Hrun|]. exact (Hsound Sample.sato eq_refl).
Defined.

Lemma get_user_by_id_sound_and_complete_witness :
  ∃ w', get_user_by_id 2 Sample.seeded_world
        = (Some (Some (mk_User 2 "佐藤花子" "sato@example.com")), w')
    ∧ ∃ row, row ∈ users (db Sample.seeded_world) ∧ row_id row = 2%Z.
Proof.
  destruct (get_user_by_id_sound_and_complete
              2 Sample.seeded_world) as (r & w' & Hrun & _ & Hsound & _).
  assert (r = Some (mk_User 2 "佐藤花子" "sato@example.com")) as ->.
  { vm_compute in Hrun. injection Hrun as Hr _. rewrite <- Hr. reflexivity. }
  exists w'. split; [exact Hrun|].
  destruct (Hsound _ eq_refl) as (_ & row & Hin & Hid & _). exists row. auto.
Defined.

Section SeedOutcome.
Context `{Externals}.

(** ** The seed routine, once more *)

(** The outcome of a run, by the table it finds and the calls that fail. *)
Lemma create_test_users_outcome w :
  ∃ b w', create_test_users w = (Some b, w')
    ∧ pending w' = []
    ∧ (b = true ↔ healthy (seed_calls w) w = true)
    ∧ users (db w') =
        if b then
          match users (db w) with
          | [] => seeded_rows (auto_increment (db w)) (entropy w)
          | _ :: _ => users (db w)
          end
        else users (db w).
Proof.
  destruct w as [[us ai] p ini fs e tr0].
  destruct fs as [|[] fs]; [| |destruct fs as [|[] fs]];
    [| | | |destruct us as [|u us];
           [destruct fs as [|[] fs];
            [| |destruct fs as [|[] fs]; [| |destruct fs as [|[] fs]]]|]].
  all: try (destruct us as [|u us]).
  all: eexists _, _; (split; [cbv -[Z.add Datatypes.app]; reflexivity|]).
  all: split; [reflexivity|].
  all: unfold healthy, seed_calls, seeded_rows; cbn.
  all: rewrite ?take_0; cbn.
  all: split; [split; intros; congruence|reflexivity].
Qed.

(** X3: a run of [create_test_users] is all or nothing. It returns [True]
    exactly when every database call it makes succeeds; then the table is the
    one it found or, if that was empty, the two demo rows. When it returns
    [False] the table is as it found it, even if an insert had already gone
    through, and in both cases no uncommitted row is left behind. *)
Theorem create_test_users_all_or_nothing (w : world) :
  ∃ b w', create_test_users w = (Some b, w')
    ∧ pending w' = []
    ∧ (b = true ↔ healthy (seed_calls w) w = true)
    ∧ (b = false → users (db w') = users (db w))
    ∧ (b = true →
       users (db w') =
         match users (db w) with
         | [] => seeded_rows (auto_increment (db w)) (entropy w)
         | _ :: _ => users (db w)
         end).
Proof.
  destruct (create_test_users_outcome w) as (b & w' & Hrun & Hp & Hb & Hu).
  exists b, w'. repeat split; try tauto; intros ->; exact Hu.
Qed.

(** X13: [ensure_test_users] records success only over a table that has
    rows; and on a database that answers, it records it at the first attempt:
    one connection, no sleep. *)
Theorem ensure_test_users_first_attempt (w : world) :
  _test_users_initialized w = false →
  ∃ w' tr, ensure_test_users w = (Some tt, w')
    ∧ trace w' = trace w ++ tr
    ∧ (_test_users_initialized w' = true → users (db w') ≠ [])
    ∧ (healthy (seed_calls w) w = true →
       _test_users_initialized w' = true
       ∧ count_event is_connect tr = 1
       ∧ count_event is_sleep tr = 0).
Proof.
  intros Hf. rewrite (ensure_test_users_unfold w Hf).
  destruct (seed_attempts_cases (seq 0 5) w)
    as [(k & Hk & Hbefore & Hok & ->)|[Hall ->]]; rewrite length_seq in *.
  - destruct (attempt_world_trace k w) as (trk & Htrk & Hck & Hsk & _).
    destruct (create_test_users_outcome (attempt_world k w))
      as (b & w' & Hrun & _ & _ & Hu).
    destruct (create_test_users_cases (attempt_world k w))
      as (b' & w'' & tr & Hrun' & _ & _ & Htr & Hc & Hs & _).
    rewrite Hrun in Hrun', Hok. injection Hrun' as <- <-. simpl in Hok.
    injection Hok as ->. rewrite Hrun. simpl.
    exists (set_initialized true w'), (trk ++ EvConnect :: tr). simpl.
    split; [reflexivity|]. split; [rewrite Htr, Htrk, <- app_assoc; reflexivity|].
    split.
    + intros _. rewrite Hu. destruct (users (db (attempt_world k w))); discriminate.
    + intros Hh. split; [reflexivity|].
      destruct k as [|k].
      * simpl in *. assert (trk = []) as ->.
        { apply (app_inv_head (trace w)). rewrite <- Htrk, app_nil_r. reflexivity. }
        simpl. rewrite Hc, Hs. auto.
      * exfalso. specialize (Hbefore 0 ltac:(lia)). simpl in Hbefore.
        destruct (create_test_users_outcome w) as (b0 & w0 & Hrun0 & _ & Hb0 & _).
        rewrite Hrun0 in Hbefore. simpl in Hbefore. injection Hbefore as ->.
        apply Hb0 in Hh. discriminate.
  - destruct (attempt_world_trace 5 w) as (tr & Htr & _).
    exists (attempt_world 5 w), tr. split; [reflexivity|]. split; [exact Htr|].
    rewrite attempt_world_flag, Hf. split; [discriminate|].
    intros Hh. exfalso. specialize (Hall 0 ltac:(lia)). simpl in Hall.
    destruct (create_test_users_outcome w) as (b0 & w0 & Hrun0 & _ & Hb0 & _).
    rewrite Hrun0 in Hall. simpl in Hall. injection Hall as ->.
    apply Hb0 in Hh. discriminate.
Qed.

End SeedOutcome.

Section WorldEffects.
Context `{Externals}.

(** ** What a request does to the world *)

Lemma evolves_refl w : evolves w w.
Proof. split; auto. Qed.

Lemma evolves_trans w1 w2 w3 : evolves w1 w2 → evolves w2 w3 → evolves w1 w3.
Proof.
  intros [Hf1 Ht1] [Hf2 Ht2]. split; [auto|].
  destruct Ht1 as [E1|[E1 (i & e & S1)]], Ht2 as [E2|[E2 (i2 & e2 & S2)]].
  - left. congruence.
  - right. split; [congruence|]. eauto.
  - right. split; [exact E1|]. exists i, e. congruence.
  - rewrite S1 in E2. discriminate.
Qed.

Lemma keeps_ret {A} (a : A) : keeps (ret a).
Proof. intros w. apply evolves_refl. Qed.

Lemma keeps_bind {A B} (m : io A) (k : A → io B) :
  keeps m → (∀ a, keeps (k a)) → keeps (bind m k).
Proof.
  intros Hm Hk w. specialize (Hm w). unfold bind.
  destruct (m w) as [[a|] w1]; simpl in *; [|exact Hm].
  eapply evolves_trans; [exact Hm | apply Hk].
Qed.

Lemma keeps_try_except {A} (m h : io A) : keeps m → keeps h → keeps (try_except m h).
Proof.
  intros Hm Hh w. specialize (Hm w). unfold try_except.
  destruct (m w) as [[a|] w1]; simpl in *; [exact Hm|].
  eapply evolves_trans; [exact Hm | apply Hh].
Qed.

Lemma keeps_create_test_users : keeps create_test_users.
Proof.
  intros w.
  destruct (create_test_users_cases w)
    as (b & w' & tr & Hrun & Hf & _ & _ & _ & _ & _ & _ & Hkeep & Hfail & Hseed & _).
  rewrite Hrun. simpl. split; [congruence|].
  destruct (users (db w)) as [|u us] eqn:Hu.
  - destruct b.
    + right. split; [reflexivity|]. rewrite (Hseed eq_refl eq_refl). eauto.
    + left. auto.
  - left. destruct Hkeep as [-> _]; [discriminate|]. exact Hu.
Qed.

Lemma keeps_seed_attempts l : keeps (seed_attempts l).
Proof.
  induction l as [|a l IH]; simpl; [apply keeps_ret|].
  apply keeps_bind; [apply keeps_create_test_users|]. intros [].
  - intros w. split; [reflexivity | left; reflexivity].
  - apply keeps_bind; [|intros _; exact IH].
    intros w. split; [auto | left; reflexivity].
Qed.

Lemma keeps_ensure_test_users : keeps ensure_test_users.
Proof.
  intros w. unfold ensure_test_users. destruct (_test_users_initialized w).
  - apply keeps_ret.
  - apply keeps_seed_attempts.
Qed.

Lemma keeps_current_user s : keeps (current_user s).
Proof.
  intros w. destruct (current_user_spec s w) as (w' & tr & Hrun & Hdb & Hf & _).
  rewrite Hrun. simpl. split; [congruence | left; congruence].
Qed.

Lemma keeps_get_user_by_email email : keeps (get_user_by_email email).
Proof.
  intros w. destruct (get_user_by_email_cases email w) as (w' & tr & Hrun & Hdb & Hf & _).
  rewrite Hrun. simpl. split; [congruence | left; congruence].
Qed.

Lemma keeps_app r : keeps (app r).
Proof.
  assert (Hindex : keeps (index r)).
  { unfold index. apply keeps_bind; [apply keeps_ensure_test_users|]. intros _.
    apply keeps_bind; [apply keeps_current_user|]. intros [u|]; apply keeps_ret. }
  assert (Hlogin : keeps (login r)).
  { unfold login. apply keeps_bind; [apply keeps_ensure_test_users|]. intros _.
    apply keeps_bind; [apply keeps_current_user|]. intros [u|]; [apply keeps_ret|].
    destruct (validate_on_submit r) as [[] form]; [|apply keeps_ret].
    apply keeps_bind; [apply keeps_get_user_by_email|].
    intros [u|]; [|apply keeps_ret].
    destruct (check_password_hash _ _); apply keeps_ret. }
  assert (Hreq : ∀ view, (∀ u, keeps (view u r)) → keeps (login_required view r)).
  { intros view Hview. unfold login_required.
    apply keeps_bind; [apply keeps_current_user|]. intros [u|]; [apply Hview|apply keeps_ret]. }
  unfold app.
  repeat match goal with
         | |- context [if ?b then _ else _] => destruct b
         end;
    try destruct (method r); try apply keeps_ret; try assumption;
    apply Hreq; intros u; apply keeps_ret.
Qed.

(** Every request is answered, by a 500 if its handler raises, and the
    requests together change the world only as [evolves] allows. *)
Lemma run_answers rs w :
  ∃ answers w', run rs w = (Some answers, w')
    ∧ length answers = length rs ∧ evolves w w'.
Proof.
  revert w. induction rs as [|r rs IH]; intros w; simpl.
  { exists [], w. split; [reflexivity|]. split; [reflexivity | apply evolves_refl]. }
  pose proof (keeps_app r w) as He1.
  unfold bind at 1. unfold try_except.
  destruct (app r w) as [[a|] w1]; simpl in He1 |- *.
  - destruct (IH w1) as (answers & w2 & Hrun2 & Hlen & He2).
    exists (a :: answers), w2. unfold bind. rewrite Hrun2. simpl.
    split; [reflexivity|]. split; [by rewrite Hlen|].
    eapply evolves_trans; eassumption.
  - destruct (IH w1) as (answers & w2 & Hrun2 & Hlen & He2).
    exists ((Abort 500, cookie r) :: answers), w2. unfold bind. rewrite Hrun2. simpl.
    split; [reflexivity|]. split; [by rewrite Hlen|].
    eapply evolves_trans; eassumption.
Qed.

(** X4: no request unsets the flag, or changes or removes a row, whether its
    handler returns or raises: in the world a request leaves, the table is
    the one before it or, if that was empty, the two demo rows. *)
Theorem app_keeps_the_rows (r : request) (w : world) :
  let w' := snd (app r w) in
  (_test_users_initialized w = true → _test_users_initialized w' = true)
  ∧ (users (db w') = users (db w)
     ∨ (users (db w) = [] ∧ ∃ i e, users (db w') = seeded_rows i e)).
Proof.
  intros w'. subst w'.
  destruct (keeps_app r w) as [Hflag Htable].
  split; [exact Hflag | exact Htable].
Qed.

(** X5: the same over any sequence of requests, served after the seeding
    at startup: [main] gives every request its answer, a 500 where the
    handler raised, and leaves the table it found or, if that was empty,
    the two demo rows. *)
Theorem main_keeps_the_rows (rs : list request) (w : world) :
  ∃ answers w', main rs w = (Some answers, w')
    ∧ length answers = length rs
    ∧ (users (db w') = users (db w)
       ∨ (users (db w) = [] ∧ ∃ i e, users (db w') = seeded_rows i e)).
Proof.
  unfold main, bind.
  pose proof (keeps_create_test_users w) as He1.
  destruct (create_test_users_cases w) as (b & w1 & tr & Hseed & _).
  rewrite Hseed in He1 |- *. simpl in He1.
  destruct (run_answers rs w1) as (answers & w2 & -> & Hlen & He2).
  exists answers, w2. split; [reflexivity|]. split; [exact Hlen|].
  apply (evolves_trans _ _ _ He1 He2).
Qed.

End WorldEffects.

Section ReadOnly.
Context `{Externals}.

Lemma reads_only_ret {A} (a : A) n : reads_only n (ret a).
Proof.
  intros w Hf. exists a, w, []. rewrite app_nil_r. simpl.
  repeat split; auto; lia.
Qed.

Lemma reads_only_bind {A B} n k (m : io A) (f : A → io B) :
  reads_only n m → (∀ a, reads_only k (f a)) → reads_only (n + k) (bind m f).
Proof.
  intros Hm Hk w Hf.
  destruct (Hm w Hf) as (a & w1 & tr1 & Hrun1 & Hdb1 & Hf1 & Htr1 & Hall1 & Hl1).
  destruct (Hk a w1 Hf1) as (b & w2 & tr2 & Hrun2 & Hdb2 & Hf2 & Htr2 & Hall2 & Hl2).
  exists b, w2, (tr1 ++ tr2). unfold bind. rewrite Hrun1, Hrun2.
  split; [reflexivity|]. split; [congruence|]. split; [exact Hf2|].
  split; [rewrite Htr2, Htr1, app_assoc; reflexivity|].
  split; [apply Forall_app; auto|]. rewrite length_app. lia.
Qed.

Lemma reads_only_ensure_test_users : reads_only 0 ensure_test_users.
Proof.
  intros w Hf. exists tt, w, []. unfold ensure_test_users. rewrite Hf, app_nil_r.
  repeat split; auto.
Qed.

Lemma get_user_by_id_events uid w :
  ∃ a w' tr, get_user_by_id uid w = (Some a, w')
    ∧ db w' = db w
    ∧ _test_users_initialized w' = _test_users_initialized w
    ∧ trace w' = trace w ++ tr
    ∧ Forall (λ e, is_lookup_event e = true) tr
    ∧ length tr ≤ 2.
Proof.
  destruct w as [d p ini fs e tr].
  destruct fs as [|[] [|[] fs]]; eexists _, _, _;
    (split; [cbv -[Z.add Datatypes.app find String.eqb Z.eqb]; reflexivity|]);
    simpl; (split; [reflexivity|]); (split; [reflexivity|]);
    (split; [rewrite <- ?app_assoc; reflexivity|]);
    (split; [repeat constructor|simpl; lia]).
Qed.

Lemma get_user_by_email_events email w :
  ∃ a w' tr, get_user_by_email email w = (Some a, w')
    ∧ db w' = db w
    ∧ _test_users_initialized w' = _test_users_initialized w
    ∧ trace w' = trace w ++ tr
    ∧ Forall (λ e, is_lookup_event e = true) tr
    ∧ length tr ≤ 2.
Proof.
  destruct w as [d p ini fs e tr].
  destruct fs as [|[] [|[] fs]]; eexists _, _, _;
    (split; [cbv -[Z.add Datatypes.app find String.eqb Z.eqb]; reflexivity|]);
    simpl; (split; [reflexivity|]); (split; [reflexivity|]);
    (split; [rewrite <- ?app_assoc; reflexivity|]);
    (split; [repeat constructor|simpl; lia]).
Qed.

Lemma current_user_events s w :
  ∃ a w' tr, current_user s w = (Some a, w')
    ∧ db w' = db w
    ∧ _test_users_initialized w' = _test_users_initialized w
    ∧ trace w' = trace w ++ tr
    ∧ Forall (λ e, is_lookup_event e = true) tr
    ∧ length tr ≤ 2.
Proof.
  unfold current_user, load_user. destruct (_user_id s) as [uid|].
  - apply get_user_by_id_events.
  - exists None, w, []. rewrite app_nil_r. simpl. repeat split; auto; lia.
Qed.

Lemma reads_only_current_user s : reads_only 2 (current_user s).
Proof.
  intros w Hf. destruct (current_user_events s w) as (a & w' & tr & Hrun & Hdb & Hf' & Hrest).
  exists a, w', tr. split; [exact Hrun|]. split; [exact Hdb|]. split; [congruence | exact Hrest].
Qed.

Lemma reads_only_get_user_by_email email : reads_only 2 (get_user_by_email email).
Proof.
  intros w Hf.
  destruct (get_user_by_email_events email w) as (a & w' & tr & Hrun & Hdb & Hf' & Hrest).
  exists a, w', tr. split; [exact Hrun|]. split; [exact Hdb|]. split; [congruence | exact Hrest].
Qed.

Lemma reads_only_weaken {A} n k (m : io A) : n ≤ k → reads_only n m → reads_only k m.
Proof.
  intros Hle Hm w Hf. destruct (Hm w Hf) as (a & w' & tr & ? & ? & ? & ? & ? & ?).
  exists a, w', tr. repeat split; auto; lia.
Qed.

(** X6: once seeding is recorded, a request only reads: whatever the route,
    it is answered after at most four database calls (a connection and a
    SELECT to load the current user, the same to look the email up), none of
    them a write, and the table, the id counter and the flag are as
    before. *)
Theorem initialized_app_only_reads (r : request) (w : world) :
  _test_users_initialized w = true →
  ∃ resp s' w' tr, app r w = (Some (resp, s'), w')
    ∧ db w' = db w
    ∧ _test_users_initialized w' = true
    ∧ trace w' = trace w ++ tr
    ∧ Forall (λ e, is_lookup_event e = true) tr
    ∧ length tr ≤ 4.
Proof.
  assert (Hindex : reads_only 4 (index r)).
  { unfold index. apply (reads_only_bind 0 4); [apply reads_only_ensure_test_users|].
    intros _. apply (reads_only_bind 2 2); [apply reads_only_current_user|].
    intros [u|]; apply reads_only_ret. }
  assert (Hlogin : reads_only 4 (login r)).
  { unfold login. apply (reads_only_bind 0 4); [apply reads_only_ensure_test_users|].
    intros _. apply (reads_only_bind 2 2); [apply reads_only_current_user|].
    intros [u|]; [apply reads_only_ret|].
    destruct (validate_on_submit r) as [[] form]; [|apply reads_only_ret].
    apply (reads_only_bind 2 0); [apply reads_only_get_user_by_email|].
    intros [u|]; [|apply reads_only_ret].
    destruct (check_password_hash _ _); apply reads_only_ret. }
  assert (Hreq : ∀ view, (∀ u, reads_only 2 (view u r)) →
            reads_only 4 (login_required view r)).
  { intros view Hview. unfold login_required.
    apply (reads_only_bind 2 2); [apply reads_only_current_user|].
    intros [u|]; [apply Hview|apply reads_only_ret]. }
  assert (Happ : reads_only 4 (app r)).
  { unfold app.
    repeat match goal with
           | |- context [if ?b then _ else _] => destruct b
           end;
      try destruct (method r); try apply reads_only_ret; try assumption;
      apply Hreq; intros u; apply reads_only_ret. }
  intros Hf. destruct (Happ w Hf) as ([resp s'] & w' & tr & Hrest).
  exists resp, s', w', tr. exact Hrest.
Qed.

(** X7: /dashboard and /logout never run the seed routine: flag set or not,
    they are answered after at most two database calls, the connection and
    the SELECT that load the current user, and leave the table, the id
    counter and the flag as they were. *)
Theorem protected_routes_never_seed (r : request) (w : world) :
  method r = GET → path r = "/dashboard" ∨ path r = "/logout" →
  ∃ resp s' w' tr, app r w = (Some (resp, s'), w')
    ∧ db w' = db w
    ∧ _test_users_initialized w' = _test_users_initialized w
    ∧ trace w' = trace w ++ tr
    ∧ Forall (λ e, is_lookup_event e = true) tr
    ∧ length tr ≤ 2.
Proof.
  intros Hm Hp.
  assert (Hrun : ∃ view, app r w = login_required view r w
                         ∧ ∀ u, ∃ x, view u r = ret x) .
  { destruct Hp as [Hp|Hp].
    - rewrite (app_dashboard r w Hm Hp). eexists. split; [reflexivity|]. eauto.
    - rewrite (app_logout r w Hm Hp). eexists. split; [reflexivity|]. eauto. }
  destruct Hrun as (view & -> & Hview). unfold login_required, bind.
  destruct (current_user_events (cookie r) w) as (a & w' & tr & -> & Hrest).
  destruct a as [u|].
  - destruct (Hview u) as ([resp s'] & ->). exists resp, s', w', tr. auto.
  - unfold unauthorized. eexists _, _, w', tr. split; [reflexivity | exact Hrest].
Qed.

End ReadOnly.

Lemma initialized_app_only_reads_witness :
  ∃ resp s' w', app (H := Sample.externals)
      (Sample.post_login Sample.anonymous "sato@example.com" "password123")
      Sample.seeded_world = (Some (resp, s'), w')
    ∧ db w' = db Sample.seeded_world.
Proof.
  destruct (initialized_app_only_reads (H := Sample.externals)
              (Sample.post_login Sample.anonymous "sato@example.com" "password123")
              Sample.seeded_world eq_refl) as (resp & s' & w' & tr & Hrun & Hdb & _).
  exists resp, s', w'. auto.
Defined.

Lemma protected_routes_never_seed_witness :
  ∃ resp s' w', app (H := Sample.externals)
      (Sample.get_page Sample.anonymous "/dashboard") Sample.empty_world
      = (Some (resp, s'), w')
    ∧ db w' = db Sample.empty_world
    ∧ _test_users_initialized w' = false.
Proof.
  destruct (protected_routes_never_seed (H := Sample.externals)
              (Sample.get_page Sample.anonymous "/dashboard") Sample.empty_world
              eq_refl (or_introl eq_refl)) as (resp & s' & w' & tr & Hrun & Hdb & Hf & _).
  exists resp, s', w'. auto.
Defined.

Section SessionProperties.
Context `{Externals}.

(** ** Sessions *)

(** What a request to /login does to the world it is answered in. *)
Lemma login_runs w r :
  ∃ w1 w2 w',
    ensure_test_users w = (Some tt, w1)
    ∧ current_user (cookie r) w1 = (Some (active_user (cookie r) w1), w2)
    ∧ db w2 = db w1
    ∧ login_world r w = w2
    ∧ db w' = db w2
    ∧ login r w =
        (Some
           match active_user (cookie r) w1 with
           | Some _ => (Redirect "/dashboard" None, cookie r)
           | None =>
               if fst (validate_on_submit r) then
                 match credentials_accepted r w2 with
                 | Some u =>
                     (Redirect "/dashboard" None,
                      flash "ログインに成功しました。" "success"
                        (login_user (mk_User (row_id u) (row_name u) (row_email u))
                           (cookie r)))
                 | None =>
                     (Render (login_html (snd (validate_on_submit r))),
                      flash login_failed_message "error" (cookie r))
                 end
               else (Render (login_html (snd (validate_on_submit r))), cookie r)
           end, w').
Proof.
  unfold login, login_world, bind.
  destruct (ensure_test_users_events w) as (w1 & tr1 & -> & _). simpl.
  destruct (current_user_spec (cookie r) w1) as (w2 & tr2 & Hcur & Hdb2 & _).
  rewrite Hcur. simpl. exists w1, w2.
  destruct (active_user (cookie r) w1).
  { exists w2. repeat split; auto. }
  pose proof (validate_on_submit_email r) as He.
  pose proof (validate_on_submit_password r) as Hpw.
  destruct (validate_on_submit r) as [valid form]. simpl in *.
  destruct valid; [|exists w2; repeat split; auto].
  destruct (get_user_by_email_spec (email_data form) w2) as (w3 & -> & Hdb3).
  unfold credentials_accepted. rewrite He, Hpw. exists w3.
  destruct (lookup_by_email (form_email r) w2) as [u|]; [|repeat split; auto].
  destruct (check_password_hash _ _); repeat split; auto.
Qed.

Lemma credentials_accepted_row r w u :
  credentials_accepted r w = Some u →
  u ∈ users (db w) ∧ row_email u = form_email r
  ∧ check_password_hash (row_password_hash u) (form_password r) = true.
Proof.
  unfold credentials_accepted, lookup_by_email.
  destruct (healthy 2 w); [|discriminate].
  destruct (find _ _) as [u'|] eqn:Hfind; [|discriminate].
  destruct (check_password_hash _ _) eqn:Hcheck; [|discriminate].
  intros [= <-]. apply find_some in Hfind as [Hin Heq].
  split; [by apply list_elem_of_In|]. split; [by apply String.eqb_eq | exact Hcheck].
Qed.

(** X8: who a session belongs to changes in two ways only. Whatever the
    request, the user id of the session it is answered with is the one it
    came with, unless it is a GET of /logout by a user with an active
    session, which removes it, or a POST of /login, which sets it to the id
    of a row of the table that has the submitted email and a hash the
    submitted password verifies against. *)
Theorem session_changes_only_by_login_and_logout (r : request) (w : world) :
  ∃ resp s' w', app r w = (Some (resp, s'), w')
    ∧ (_user_id s' = _user_id (cookie r)
       ∨ (method r = GET ∧ path r = "/logout"
          ∧ active_user (cookie r) w ≠ None ∧ _user_id s' = None)
       ∨ (method r = POST ∧ path r = "/login"
          ∧ ∃ u, u ∈ users (db w')
              ∧ row_email u = form_email r
              ∧ check_password_hash (row_password_hash u) (form_password r) = true
              ∧ _user_id s' = Some (row_id u))).
Proof.
  assert (Hlogin : path r = "/login" →
    ∃ resp s' w', login r w = (Some (resp, s'), w')
      ∧ (_user_id s' = _user_id (cookie r)
         ∨ (method r = POST
            ∧ ∃ u, u ∈ users (db w') ∧ row_email u = form_email r
                ∧ check_password_hash (row_password_hash u) (form_password r) = true
                ∧ _user_id s' = Some (row_id u)))).
  { intros Hp.
    destruct (login_runs w r) as (w1 & w2 & w' & _ & _ & _ & _ & Hdb & ->).
    destruct (active_user (cookie r) w1); [eexists _, _, _; split; [reflexivity|auto]|].
    destruct (fst (validate_on_submit r)) eqn:Hv;
      [|eexists _, _, _; split; [reflexivity|auto]].
    destruct (credentials_accepted r w2) as [u|] eqn:Hacc;
      [|eexists _, _, _; split; [reflexivity|auto]].
    eexists _, _, _. split; [reflexivity|]. right.
    destruct (credentials_accepted_row _ _ _ Hacc) as (Hin & He & Hc).
    split.
    - unfold validate_on_submit, is_submitted in Hv.
      destruct (method r); [discriminate | reflexivity].
    - exists u. rewrite Hdb. auto. }
  unfold app.
  destruct (String.eqb (path r) "/") eqn:E1.
  { destruct (method r); [|eexists _, _, _; split; [reflexivity|auto]].
    unfold index, bind.
    destruct (ensure_test_users_events w) as (w1 & tr1 & -> & _).
    destruct (current_user_spec (cookie r) w1) as (w2 & tr2 & -> & _).
    destruct (active_user _ _); eexists _, _, _; (split; [reflexivity|auto]). }
  destruct (String.eqb (path r) "/login") eqn:E2.
  { apply String.eqb_eq in E2.
    destruct (Hlogin E2) as (resp & s' & w' & Hrun & [Hsame|[Hm Hu]]);
      exists resp, s', w'; (split; [exact Hrun|]); auto. }
  destruct (String.eqb (path r) "/dashboard") eqn:E3.
  { destruct (method r); [|eexists _, _, _; split; [reflexivity|auto]].
    destruct (dashboard_cases w r) as (w' & ->).
    destruct (active_user _ _); eexists _, _, _; (split; [reflexivity|auto]). }
  destruct (String.eqb (path r) "/logout") eqn:E4.
  { apply String.eqb_eq in E4.
    destruct (method r) eqn:Hm; [|eexists _, _, _; split; [reflexivity|auto]].
    unfold logout, login_required, bind.
    destruct (current_user_spec (cookie r) w) as (w' & tr & -> & _).
    destruct (active_user (cookie r) w) eqn:Ha;
      eexists _, _, _; (split; [reflexivity|]); [|auto].
    right. left. repeat split; auto. }
  eexists _, _, _. split; [reflexivity|auto].
Qed.

End SessionProperties.

Section FormProperties.
Context `{Externals}.

(** ** The login form and the protected routes *)





(** X11: both protected routes turn a requester without an active session
    away in the same way: a redirect to the login page that names the page
    asked for as [next], one flashed login message of category 'message',
    and the user id of the session, stale as it may be, left in place. *)
Theorem login_required_turns_away (r : request) (w : world) :
  method r = GET → path r = "/dashboard" ∨ path r = "/logout" →
  active_user (cookie r) w = None →
  ∃ w', app r w =
    (Some (Redirect "/login" (Some (path r)),
           mk_session (_user_id (cookie r))
             (_flashes (cookie r) ++ [("message", login_message)])), w').
Proof.
  intros Hm Hp Ha. destruct Hp as [Hp|Hp].
  - rewrite (app_dashboard r w Hm Hp). destruct (dashboard_cases w r) as (w' & ->).
    rewrite Ha. exists w'. reflexivity.
  - rewrite (app_logout r w Hm Hp). unfold logout, login_required, bind.
    destruct (current_user_spec (cookie r) w) as (w' & tr & -> & _).
    rewrite Ha. exists w'. reflexivity.
Qed.

Lemma find_by_id_unique (l : list user_row) (u : user_row) :
  NoDup (map row_id l) → u ∈ l →
  find (λ x, Z.eqb (row_id x) (row_id u)) l = Some u.
Proof.
  induction l as [|x l IH]; intros Hnd Hin; [by apply elem_of_nil in Hin|].
  simpl in *. apply NoDup_cons in Hnd as [Hx Hnd].
  apply elem_of_cons in Hin as [->|Hin].
  - rewrite Z.eqb_refl. reflexivity.
  - destruct (Z.eqb_spec (row_id x) (row_id u)) as [Heq|Hne]; [|auto].
    exfalso. apply Hx. rewrite Heq. apply list_elem_of_fmap. exists u. auto.
Qed.

(** X12: a login followed by the dashboard. When a POST of /login is accepted
    for a row, the session it is answered with opens the dashboard for that
    very row in the world the login left, provided the ids of the table are
    distinct and the database then answers: the page is rendered with the
    row's id, name and email. *)
Theorem login_then_dashboard (r : request) (w : world) (u : user_row) :
  path r = "/login" →
  active_user (cookie r) (snd (ensure_test_users w)) = None →
  fst (validate_on_submit r) = true →
  credentials_accepted r (login_world r w) = Some u →
  ∃ s' w', app r w = (Some (Redirect "/dashboard" None, s'), w')
    ∧ ∀ r2, method r2 = GET → path r2 = "/dashboard" → cookie r2 = s' →
        NoDup (map row_id (users (db w'))) → healthy 2 w' = true →
        ∃ w2, app r2 w' =
          (Some (Render (dashboard_html
                           (mk_User (row_id u) (row_name u) (row_email u))), s'),
           w2).
Proof.
  intros Hp Ha Hv Hacc. rewrite (app_login r w Hp).
  destruct (login_runs w r) as (w1 & w2 & w' & Hens & _ & _ & Hlw & Hdb & ->).
  rewrite Hens in Ha. simpl in Ha. rewrite Ha, Hv. rewrite Hlw in Hacc. rewrite Hacc.
  eexists _, w'. split; [reflexivity|].
  intros r2 Hm2 Hp2 Hc2 Hnd Hh. rewrite (app_dashboard r2 w' Hm2 Hp2).
  destruct (dashboard_cases w' r2) as (w3 & ->).
  destruct (credentials_accepted_row _ _ _ Hacc) as (Hin & _).
  rewrite <- Hdb in Hin.
  unfold active_user, lookup_by_id. rewrite Hc2. simpl. rewrite Hh.
  rewrite (find_by_id_unique _ _ Hnd Hin). exists w3. reflexivity.
Qed.

End FormProperties.



Lemma login_required_turns_away_witness :
  ∃ w', app (H := Sample.externals)
      (Sample.get_page Sample.anonymous "/logout") Sample.seeded_world
    = (Some (Redirect "/login" (Some "/logout"),
             mk_session None [("message", login_message)]), w').
Proof.
  exact (login_required_turns_away (H := Sample.externals)
           (Sample.get_page Sample.anonymous "/logout") Sample.seeded_world
           eq_refl (or_intror eq_refl) eq_refl).
Defined.

Lemma login_then_dashboard_witness :
  ∃ s' w', app (H := Sample.externals)
      (Sample.post_login Sample.anonymous "sato@example.com" "password123")
      Sample.seeded_world = (Some (Redirect "/dashboard" None, s'), w')
    ∧ ∃ w2, app (H := Sample.externals) (Sample.get_page s' "/dashboard") w'
        = (Some (Render (dashboard_html (mk_User 2 "佐藤花子" "sato@example.com")), s'),
           w2).
Proof.
  destruct (login_then_dashboard (H := Sample.externals)
              (Sample.post_login Sample.anonymous "sato@example.com" "password123")
              Sample.seeded_world Sample.sato eq_refl eq_refl eq_refl eq_refl)
    as (s' & w' & Hrun & Hnext).
  exists s', w'. split; [exact Hrun|].
  assert (Hw : w' = Sample.seeded_world ∨ db w' = db Sample.seeded_world ∧ faults w' = []).
  { right. vm_compute in Hrun. injection Hrun as _ <-. split; reflexivity. }
  apply (Hnext (Sample.get_page s' "/dashboard") eq_refl eq_refl eq_refl).
  - destruct Hw as [->|[-> _]]; vm_compute; repeat constructor;
      rewrite ?elem_of_cons, ?elem_of_nil; intuition discriminate.
  - destruct Hw as [->|[_ Hf]]; [reflexivity|]. unfold healthy. rewrite Hf. reflexivity.
Defined.

Section DemoAccounts.
Context `{Externals}.

(** ** Seeding, then login *)

Lemma healthy_split n m w :
  healthy (n + m) w = true →
  healthy n w = true ∧ forallb negb (take m (drop n (faults w))) = true.
Proof.
  unfold healthy. generalize (faults w) as fs.
  induction n as [|n IH]; intros fs Hh.
  - rewrite ?take_0, ?drop_0. simpl in *. auto.
  - destruct fs as [|b fs]; simpl in *.
    + rewrite ?take_nil. auto.
    + apply andb_prop in Hh as [Hb Hh]. destruct (IH fs Hh) as [H1 H2].
      rewrite Hb, H1. auto.
Qed.

(** X14: the demo accounts work from the first request on. Let the hashing
    library verify what it generated for 'password123'. Then, on an empty
    table, a fresh process and a database that answers, the first POST of
    /login with a demo email and the password 'password123', from a
    requester with no session and a form that passes validation, seeds the
    table and logs that demo user in: the session holds the id of the
    seeded row with that email. *)
Theorem demo_accounts_log_in (w : world) (r : request) :
  (∀ n, check_password_hash (generate_password_hash "password123" n) "password123"
        = true) →
  users (db w) = [] → _test_users_initialized w = false → healthy (5 + 2) w = true →
  path r = "/login" → _user_id (cookie r) = None →
  fst (validate_on_submit r) = true → form_password r = "password123" →
  form_email r = "yamada@example.com" ∨ form_email r = "sato@example.com" →
  ∃ s' w' u, app r w = (Some (Redirect "/dashboard" None, s'), w')
    ∧ users (db w') = seeded_rows (auto_increment (db w)) (entropy w)
    ∧ u ∈ users (db w')
    ∧ row_email u = form_email r
    ∧ _user_id s' = Some (row_id u).
Proof.
  intros Hcontract Hempty Hflag Hh Hp Hanon Hv Hpw Hemail.
  apply healthy_split in Hh as [Hh5 Hh2].
  pose proof (create_test_users_empty_healthy w Hempty Hh5) as Hcreate.
  set (w1 := mk_world
       (mk_db (seeded_rows (auto_increment (db w)) (entropy w))
              (auto_increment (db w) + 1 + 1)%Z)
       [] true (drop 5 (faults w)) (S (S (entropy w)))
       (trace w ++ [EvConnect; EvSelectCount;
                    EvInsert "山田太郎" "yamada@example.com";
                    EvInsert "佐藤花子" "sato@example.com"; EvCommit])).
  assert (Hens : ensure_test_users w = (Some tt, w1)).
  { unfold ensure_test_users. rewrite Hflag. simpl. unfold bind at 1.
    rewrite Hcreate. reflexivity. }
  rewrite (app_login r w Hp).
  destruct (login_runs w r) as (w1' & w2 & w' & Hens' & Hcur & _ & _ & Hdb & ->).
  rewrite Hens in Hens'. injection Hens' as <-.
  unfold current_user in Hcur. rewrite Hanon in Hcur.
  injection Hcur as _ <-.
  rewrite active_user_anonymous by exact Hanon. rewrite Hv.
  assert (Hlook : healthy 2 w1 = true) by exact Hh2.
  unfold credentials_accepted, lookup_by_email. rewrite Hlook, Hpw.
  destruct Hemail as [He|He]; rewrite He; simpl; rewrite Hcontract.
  - exists (mk_session (Some (auto_increment (db w)))
              (_flashes (cookie r) ++ [("success", "ログインに成功しました。")])), w',
      (mk_row (auto_increment (db w)) "山田太郎" "yamada@example.com"
         (generate_password_hash "password123" (entropy w))).
    split; [reflexivity|]. rewrite Hdb. simpl. split; [reflexivity|].
    split; [|split; reflexivity]. apply elem_of_cons. left. reflexivity.
  - exists (mk_session (Some (auto_increment (db w) + 1)%Z)
              (_flashes (cookie r) ++ [("success", "ログインに成功しました。")])), w',
      (mk_row (auto_increment (db w) + 1) "佐藤花子" "sato@example.com"
         (generate_password_hash "password123" (S (entropy w)))).
    split; [reflexivity|]. rewrite Hdb. simpl. split; [reflexivity|].
    split; [|split; reflexivity].
    apply elem_of_cons. right. apply elem_of_cons. left. reflexivity.
Qed.

End DemoAccounts.

Lemma demo_accounts_log_in_witness :
  ∃ s' w' u, app (H := Sample.externals)
      (Sample.post_login Sample.anonymous "sato@example.com" "password123")
      Sample.empty_world = (Some (Redirect "/dashboard" None, s'), w')
    ∧ users (db w') = [Sample.yamada; Sample.sato]
    ∧ u ∈ users (db w')
    ∧ row_email u = "sato@example.com"
    ∧ _user_id s' = Some (row_id u).
Proof.
  refine (demo_accounts_log_in (H := Sample.externals) Sample.empty_world
            (Sample.post_login Sample.anonymous "sato@example.com" "password123")
            _ eq_refl eq_refl eq_refl eq_refl eq_refl eq_refl eq_refl (or_intror eq_refl)).
  intros n. simpl. induction n as [|n IH]; [reflexivity | exact IH].
Defined.

Lemma create_test_users_all_or_nothing_witness :
  ∃ w', create_test_users (H := Sample.externals)
          (set_faults [false; false; false; true] Sample.empty_world) = (Some false, w')
    ∧ pending w' = []
    ∧ users (db w') = [].
Proof.
  destruct (create_test_users_all_or_nothing (H := Sample.externals)
              (set_faults [false; false; false; true] Sample.empty_world))
    as (b & w' & Hrun & Hp & Hb & Hfail & _).
  assert (b = false) as ->.
  { destruct b; [|reflexivity]. apply proj1 in Hb. specialize (Hb eq_refl). discriminate. }
  exists w'. split; [exact Hrun|]. split; [exact Hp|]. exact (Hfail eq_refl).
Defined.

Lemma ensure_test_users_first_attempt_witness :
  ∃ w' tr, ensure_test_users (H := Sample.externals) Sample.empty_world = (Some tt, w')
    ∧ trace w' = trace Sample.empty_world ++ tr
    ∧ _test_users_initialized w' = true
    ∧ count_event is_connect tr = 1
    ∧ count_event is_sleep tr = 0.
Proof.
  destruct (ensure_test_users_first_attempt (H := Sample.externals) Sample.empty_world
              eq_refl) as (w' & tr & Hrun & Htr & _ & Hgood).
  exists w', tr. split; [exact Hrun|]. split; [exact Htr|]. exact (Hgood eq_refl).
Defined.

Section ConcurrentProgress.
Context `{Externals}.
Import Concurrent.

(** ** Concurrent requests: progress *)

Lemma holder_can_step i σ p :
  holds_lock p = true → ∃ σ' p', thread_step i σ p σ' p'.
Proof.
  destruct p; simpl; try discriminate; intros _.
  - destruct (flag σ) eqn:Hf; eexists _, _;
      [apply step_recheck_set | apply step_recheck_unset]; exact Hf.
  - eexists _, _. apply step_connect.
  - eexists _, _. apply step_count_raises.
  - eexists _, _. apply step_insert_raises.
  - eexists _, _. apply step_commit.
  - eexists _, _. apply step_set_flag.
  - eexists _, _. apply step_sleep.
  - eexists _, _. apply step_release.
Qed.

Lemma thread_step_table_grows i σ p σ' p' :
  thread_step i σ p σ' p' → table σ ≠ [] → table σ' ≠ [].
Proof.
  intros Hstep Hne. destruct (thread_step_table _ _ _ _ _ Hstep) as [->|(k & tx & _ & ->)];
    [exact Hne|]. destruct (table σ); [congruence | discriminate].
Qed.

Lemma thread_step_to_set_flag i σ p σ' :
  thread_step i σ p σ' at_set_flag → tx_ok σ p → table σ' ≠ [].
Proof.
  intros Hstep. remember at_set_flag as q eqn:Hq.
  destruct Hstep; simpl; intros Hok; try discriminate Hq; try assumption.
  - destruct rest; discriminate Hq.
  - destruct Hok as [_ Hn]. destruct tx; [discriminate Hn|].
    destruct (table σ); discriminate.
  - unfold after_sleep in Hq. destruct (S k <? 5); discriminate Hq.
Qed.

Lemma thread_step_flag i σ p σ' p' :
  thread_step i σ p σ' p' → flag σ = true → flag σ' = true.
Proof. destruct 1; simpl; auto. Qed.

(** With the flag set a thread moves outside the attempts only, and leaves
    the table alone. *)
Lemma thread_step_settled i σ p σ' p' :
  thread_step i σ p σ' p' → flag σ = true → outside_attempts p = true →
  outside_attempts p' = true ∧ table σ' = table σ.
Proof.
  destruct 1; simpl; intros Hf Hp; try discriminate; try congruence; auto.
Qed.

Lemma settled_initial t i : settled (initial t i).
Proof.
  unfold settled, initial; simpl. split; [discriminate|]. split; [|discriminate].
  intros j Hj. rewrite lookup_nil in Hj. discriminate.
Qed.

Lemma settled_step t s s' :
  invariant t s → settled s → step s s' → settled s'.
Proof.
  intros (Hlock & Htx & _) (Hown & Hset & Hflag) Hstep.
  destruct Hstep as [σ ts i p σ' p' Hi Hstep|σ ts]; unfold settled; simpl in *.
  - pose proof (thread_step_lock _ _ _ _ _ Hstep (Hlock i p Hi))
      as (Hin & Hout & Henter & Hleave & Hkeep).
    pose proof (lookup_lt_Some _ _ _ Hi) as Hlen.
    split; [|split].
    + intros j Hj. destruct (decide (j = i)) as [->|Hne].
      * exists p'. rewrite list_lookup_insert_eq by exact Hlen. split; [reflexivity|].
        destruct (holds_lock p') eqn:Hp'; [reflexivity|]. exfalso.
        destruct (holds_lock p) eqn:Hp.
        -- rewrite Hleave in Hj by auto. discriminate.
        -- rewrite Hout in Hj by auto. destruct (Hown i Hj) as (q & Hq & Hhq).
           congruence.
      * rewrite list_lookup_insert_ne by auto. apply Hown.
        destruct (holds_lock p') eqn:Hp'.
        { rewrite Hin in Hj by auto. congruence. }
        destruct (holds_lock p) eqn:Hp.
        { rewrite Hleave in Hj by auto. discriminate. }
        rewrite <- Hout by auto. exact Hj.
    + intros j Hj. apply list_lookup_insert_Some in Hj as [(-> & Hp' & _)|(Hne & Hj)].
      * subst p'. eapply thread_step_to_set_flag; eauto.
      * eapply thread_step_table_grows; eauto.
    + intros Hf'. destruct (flag σ) eqn:Hf.
      * destruct (Hflag eq_refl) as [Hne Hall].
        destruct (thread_step_settled _ _ _ _ _ Hstep Hf (Hall i p Hi)) as [Hp' Ht].
        split; [rewrite Ht; exact Hne|].
        intros j q Hj. apply list_lookup_insert_Some in Hj as [(-> & <- & _)|(Hne' & Hj)];
          eauto.
      * assert (p = at_set_flag ∧ p' = at_release ∧ table σ' = table σ) as (-> & -> & Ht).
        { inversion Hstep; subst; simpl in *; try congruence. auto. }
        split; [rewrite Ht; eauto|].
        intros j q Hj. apply list_lookup_insert_Some in Hj as [(-> & <- & _)|(Hne' & Hj)];
          [reflexivity|].
        destruct (holds_lock q) eqn:Hq.
        -- pose proof (Hlock j q Hj Hq). pose proof (Hlock i _ Hi eq_refl). congruence.
        -- destruct q; simpl in *; congruence.
  - split; [|split].
    + intros j Hj. destruct (Hown j Hj) as (p & Hp & Hh). exists p.
      split; [|exact Hh]. apply lookup_app_l_Some. exact Hp.
    + intros j Hj. apply lookup_app_Some in Hj as [Hj|[_ Hj]]; [eauto|].
      apply list_lookup_singleton_Some in Hj as [_ Hj]. discriminate.
    + intros Hf. destruct (Hflag Hf) as [Hne Hall]. split; [exact Hne|].
      intros j q Hj. apply lookup_app_Some in Hj as [Hj|[_ Hj]]; [eauto|].
      apply list_lookup_singleton_Some in Hj as [_ <-]. reflexivity.
Qed.

Lemma settled_reachable t i s :
  rtc step (initial t i) s → invariant t s ∧ settled s.
Proof.
  intros Hreach.
  eapply (rtc_ind_r (λ s, invariant t s ∧ settled s));
    [|intros s1 s2 _ Hstep [Hinv Hset]|exact Hreach].
  - split; [apply invariant_initial | apply settled_initial].
  - split; [eapply invariant_step | eapply settled_step]; eassumption.
Qed.

(** X15: no deadlock. In every state the threads reach, a thread that has not
    returned can make a step, unless it waits for the lock; and then the lock
    is held by a thread inside the with block, which can make a step. *)
Theorem threads_wait_only_for_the_lock (t : list user_row) (i0 : Z)
    (s : Concurrent.state) (i : nat) (p : Concurrent.pc) :
  rtc Concurrent.step (Concurrent.initial t i0) s →
  s.2 !! i = Some p → p ≠ Concurrent.returned →
  (∃ σ' p', Concurrent.thread_step i s.1 p σ' p')
  ∨ (p = Concurrent.at_acquire
     ∧ ∃ j q σ' q', Concurrent.lock s.1 = Some j ∧ s.2 !! j = Some q
         ∧ Concurrent.holds_lock q = true
         ∧ Concurrent.thread_step j s.1 q σ' q').
Proof.
  intros Hreach Hi Hp.
  destruct (settled_reachable t i0 s Hreach) as [_ (Hown & _)].
  destruct (holds_lock p) eqn:Hh.
  { left. apply holder_can_step. exact Hh. }
  destruct p; simpl in Hh; try discriminate; [| |congruence].
  - left. destruct (flag s.1) eqn:Hf; eexists _, _;
      [apply step_check_set | apply step_check_unset]; exact Hf.
  - destruct (lock s.1) as [j|] eqn:Hl.
    + right. split; [reflexivity|].
      destruct (Hown j eq_refl) as (q & Hq & Hhq).
      destruct (holder_can_step j s.1 q Hhq) as (σ' & q' & Hstep).
      exists j, q, σ', q'. auto.
    + left. eexists _, _. apply step_acquire. exact Hl.
Qed.

(** X16: seeding is done once. In every state the threads reach with the flag
    set, the table has a row; and from then on every step leaves the flag set
    and the table as it is. *)
Theorem flag_freezes_the_table (t : list user_row) (i0 : Z) (s s' : Concurrent.state) :
  rtc Concurrent.step (Concurrent.initial t i0) s →
  Concurrent.flag s.1 = true →
  Concurrent.table s.1 ≠ []
  ∧ (Concurrent.step s s' →
     Concurrent.flag s'.1 = true ∧ Concurrent.table s'.1 = Concurrent.table s.1).
Proof.
  intros Hreach Hf.
  destruct (settled_reachable t i0 s Hreach) as [_ (_ & _ & Hflag)].
  destruct (Hflag Hf) as [Hne Hall]. split; [exact Hne|].
  intros Hstep. destruct Hstep as [σ ts i p σ' p' Hi Hstep|σ ts]; simpl in *; [|auto].
  split; [eapply thread_step_flag; eauto|].
  eapply thread_step_settled; eauto.
Qed.

(** X17: a thread is through [ensure_test_users] in at most 52 steps of its
    own, whatever the database and the other threads do: every step of a
    thread brings the bound [steps_left] down, and a thread starts at 52. *)
Theorem thread_steps_are_bounded (i : nat) (σ σ' : Concurrent.shared)
    (p p' : Concurrent.pc) :
  Concurrent.thread_step i σ p σ' p' →
  steps_left p' < steps_left p
  ∧ steps_left Concurrent.at_check = 52.
Proof.
  intros Hstep. split; [|reflexivity].
  destruct Hstep; simpl; try lia.
  - destruct rest; simpl; lia.
  - unfold after_sleep. destruct (Nat.ltb_spec (S k) 5); simpl; lia.
Qed.

End ConcurrentProgress.

(** Two first requests on the sample environment, up to the moment the first
    has set the flag and the second still waits for the lock. *)
Lemma two_requests_flag_set :
  rtc (Concurrent.step (H := Sample.externals)) (Concurrent.initial [] 1)
    (Concurrent.mk_shared [Sample.yamada; Sample.sato] 3 true (Some 0),
     [Concurrent.at_release; Concurrent.at_acquire]).
Proof.
  eapply rtc_l; [apply Concurrent.step_request|]. simpl.
  eapply rtc_l; [apply Concurrent.step_request|]. simpl.
  eapply rtc_l; [eapply (Concurrent.step_thread _ _ 0);
                   [reflexivity | apply Concurrent.step_check_unset; reflexivity]|]. simpl.
  eapply rtc_l; [eapply (Concurrent.step_thread _ _ 1);
                   [reflexivity | apply Concurrent.step_check_unset; reflexivity]|]. simpl.
  eapply rtc_l; [eapply (Concurrent.step_thread _ _ 0);
                   [reflexivity | apply Concurrent.step_acquire; reflexivity]|]. simpl.
  eapply rtc_l; [eapply (Concurrent.step_thread _ _ 0);
                   [reflexivity | apply Concurrent.step_recheck_unset; reflexivity]|]. simpl.
  eapply rtc_l; [eapply (Concurrent.step_thread _ _ 0);
                   [reflexivity | apply Concurrent.step_connect]|]. simpl.
  eapply rtc_l; [eapply (Concurrent.step_thread _ _ 0);
                   [reflexivity | apply Concurrent.step_count_empty; reflexivity]|]. simpl.
  eapply rtc_l; [eapply (Concurrent.step_thread _ _ 0);
                   [reflexivity | apply (Concurrent.step_insert _ _ _ _ _ _ _ _ 0)]|]. simpl.
  eapply rtc_l; [eapply (Concurrent.step_thread _ _ 0);
                   [reflexivity | apply (Concurrent.step_insert _ _ _ _ _ _ _ _ 1)]|]. simpl.
  eapply rtc_l; [eapply (Concurrent.step_thread _ _ 0);
                   [reflexivity | apply Concurrent.step_commit]|]. simpl.
  eapply rtc_l; [eapply (Concurrent.step_thread _ _ 0);
                   [reflexivity | apply Concurrent.step_set_flag]|]. simpl.
  apply rtc_refl.
Qed.

Lemma threads_wait_only_for_the_lock_witness :
  ∃ j q σ' q',
    j = 0 ∧ q = Concurrent.at_release
    ∧ Concurrent.thread_step (H := Sample.externals) j
        (Concurrent.mk_shared [Sample.yamada; Sample.sato] 3 true (Some 0)) q σ' q'.
Proof.
  destruct (threads_wait_only_for_the_lock (H := Sample.externals) [] 1 _ 1
              Concurrent.at_acquire two_requests_flag_set eq_refl)
    as [(σ' & p' & Hstep)|(_ & j & q & σ' & q' & Hl & Hj & _ & Hstep)].
  - discriminate.
  - exfalso. inversion Hstep. discriminate.
  - simpl in Hl, Hj. injection Hl as <-. simpl in Hj. injection Hj as <-.
    exists 0, Concurrent.at_release, σ', q'. auto.
Defined.

Lemma flag_freezes_the_table_witness :
  Concurrent.table
    (Concurrent.mk_shared [Sample.yamada; Sample.sato] 3 true (Some 0)) ≠ []
  ∧ Concurrent.flag
      (Concurrent.mk_shared [Sample.yamada; Sample.sato] 3 true (Some 0)) = true.
Proof.
  split; [|reflexivity].
  exact (proj1 (flag_freezes_the_table (H := Sample.externals) [] 1 _
                  (Concurrent.initial [] 1) two_requests_flag_set eq_refl)).
Defined.

Lemma thread_steps_are_bounded_witness :
  steps_left Concurrent.at_acquire < steps_left Concurrent.at_check.
Proof.
  exact (proj1 (thread_steps_are_bounded (H := Sample.externals) 0 _ _ _ _
                  (Concurrent.step_check_unset (H := Sample.externals) 0
                     (Concurrent.mk_shared [] 1 false None) eq_refl))).
Defined.

Section ScriptProperties.
Context `{Externals}.

(** ** The provisioning script *)

Lemma has_email_app email l1 l2 :
  has_email email (l1 ++ l2) = has_email email l1 || has_email email l2.
Proof. apply existsb_app. Qed.

Lemma has_email_elem email l : has_email email l = true ↔ email ∈ emails l.
Proof.
  unfold has_email, emails. rewrite existsb_exists. split.
  - intros (u & Hin & Heq). apply String.eqb_eq in Heq. subst email.
    apply list_elem_of_fmap. exists u. split; [reflexivity | by apply list_elem_of_In].
  - intros Hin. apply list_elem_of_fmap in Hin as (u & -> & Hin).
    exists u. split; [by apply list_elem_of_In | apply String.eqb_refl].
Qed.

(** What the script does to the table. *)
Lemma script_outcome unique w :
  ∃ w', Script.create_test_users unique w = (Some tt, w')
    ∧ users (db w') =
        if healthy 4 w then
          users (db w) ++
            (if unique
             then missing_rows (auto_increment (db w)) (entropy w) (users (db w))
             else seeded_rows (auto_increment (db w)) (entropy w))
        else users (db w).
Proof.
  destruct w as [[us ai] p ini fs e tr0].
  destruct fs as [|[] [|[] [|[] [|[] fs]]]].
  all: eexists;
    (split; [cbv -[Z.add Datatypes.app existsb String.eqb andb]; reflexivity|]).
  all: unfold healthy; cbn [faults take forallb negb andb db users auto_increment entropy].
  all: rewrite ?take_0; cbn [forallb andb]; rewrite ?app_nil_r; try reflexivity.
  all: unfold missing_rows, seeded_rows, has_email; cbv beta delta [row_email].
  all: destruct unique; cbn [andb app]; rewrite ?app_nil_r; try reflexivity.
  all: rewrite ?existsb_app.
  all: repeat match goal with
       | |- context [existsb ?f ?l] => is_var l; destruct (existsb f l)
       end.
  all: simpl; rewrite ?app_nil_r; reflexivity.
Qed.


Lemma has_email_false email l : has_email email l = false → email ∉ emails l.
Proof. intros Hf Hin. apply has_email_elem in Hin. congruence. Qed.

Lemma missing_rows_spec i e rows :
  (∀ u, u ∈ missing_rows i e rows →
     (row_email u ∉ emails rows)
     ∧ ((row_name u, row_email u, "password123") ∈ test_users))
  ∧ "yamada@example.com" ∈ emails (rows ++ missing_rows i e rows)
  ∧ "sato@example.com" ∈ emails (rows ++ missing_rows i e rows)
  ∧ (NoDup (emails rows) → NoDup (emails (rows ++ missing_rows i e rows))).
Proof.
  unfold missing_rows, emails. rewrite !map_app.
  destruct (has_email "yamada@example.com" rows) eqn:Hy,
           (has_email "sato@example.com" rows) eqn:Hs; simpl.
  all: try apply has_email_elem in Hy as Hy'; try apply has_email_elem in Hs as Hs'.
  all: try apply has_email_false in Hy as Hy'; try apply has_email_false in Hs as Hs'.
  all: unfold emails in *.
  all: split; [intros u Hu; repeat (apply elem_of_cons in Hu as [->|Hu]); simpl;
               try (by apply elem_of_nil in Hu);
               (split; [assumption|unfold test_users; rewrite !elem_of_cons; auto])|].
  all: rewrite ?app_nil_r.
  all: split; [rewrite ?elem_of_app, ?elem_of_cons; auto|].
  all: split; [rewrite ?elem_of_app, ?elem_of_cons; auto|].
  all: try (intros Hnd; exact Hnd).
  all: intros Hnd; apply NoDup_app; (split; [exact Hnd|]);
    (split; [|repeat constructor; rewrite ?elem_of_cons, ?elem_of_nil;
               intuition discriminate]).
  all: intros x Hx Hin; repeat (apply elem_of_cons in Hin as [->|Hin]);
    try (by apply elem_of_nil in Hin); contradiction.
Qed.

(** X18: the script, on a schema where [users.email] is unique and a database
    that answers. It keeps every row of the table and adds, after them, the
    demo users whose email the table does not hold yet, and only those;
    afterwards both demo emails are in the table, and if no email occurred
    twice before, none does after. *)
Theorem script_adds_the_missing_demo_users (w : world) :
  healthy 4 w = true →
  ∃ w' added, Script.create_test_users true w = (Some tt, w')
    ∧ users (db w') = users (db w) ++ added
    ∧ (∀ u, u ∈ added →
         (row_email u ∉ emails (users (db w)))
         ∧ ((row_name u, row_email u, "password123") ∈ test_users))
    ∧ "yamada@example.com" ∈ emails (users (db w'))
    ∧ "sato@example.com" ∈ emails (users (db w'))
    ∧ (NoDup (emails (users (db w))) → NoDup (emails (users (db w')))).
Proof.
  intros Hh. destruct (script_outcome true w) as (w' & Hrun & Hu). rewrite Hh in Hu.
  exists w', (missing_rows (auto_increment (db w)) (entropy w) (users (db w))).
  split; [exact Hrun|]. split; [exact Hu|]. rewrite Hu.
  apply missing_rows_spec.
Qed.

(** X19: with the unique key the script is idempotent: on a database that
    answers both times, a second run adds nothing to what the first left. *)
Theorem script_is_idempotent_with_unique_emails (w : world) :
  let w1 := snd (Script.create_test_users true w) in
  let w2 := snd (Script.create_test_users true w1) in
  healthy 4 w = true → healthy 4 w1 = true →
  users (db w2) = users (db w1).
Proof.
  intros w1 w2 Hh Hh1. subst w1 w2.
  destruct (script_outcome true w) as (w1 & Hrun1 & Hu1). rewrite Hrun1 in *. simpl in *.
  destruct (script_outcome true w1) as (w2 & Hrun2 & Hu2). rewrite Hrun2. simpl.
  rewrite Hh in Hu1. rewrite Hh1 in Hu2. rewrite Hu2.
  destruct (missing_rows_spec (auto_increment (db w)) (entropy w) (users (db w)))
    as (_ & Hy & Hs & _).
  rewrite <- Hu1 in Hy, Hs. apply has_email_elem in Hy, Hs.
  unfold missing_rows. rewrite Hy, Hs. simpl. apply app_nil_r.
Qed.

(** X20: without the unique key nothing stops the script: every run on a
    database that answers appends both demo rows, whatever the table holds,
    so a second run duplicates the demo users. Unlike the seed routine of the
    application, the script has no guard of its own. *)
Theorem script_duplicates_without_unique_emails (w : world) :
  healthy 4 w = true →
  ∃ w', Script.create_test_users false w = (Some tt, w')
    ∧ users (db w') =
        users (db w) ++ seeded_rows (auto_increment (db w)) (entropy w)
    ∧ (healthy 4 w' = true →
       ∃ w'', Script.create_test_users false w' = (Some tt, w'')
         ∧ length (filter (λ u, row_email u = "yamada@example.com") (users (db w'')))
           ≥ 2).
Proof.
  intros Hh. destruct (script_outcome false w) as (w' & Hrun & Hu). rewrite Hh in Hu.
  exists w'. split; [exact Hrun|]. split; [exact Hu|]. intros Hh'.
  destruct (script_outcome false w') as (w'' & Hrun' & Hu'). rewrite Hh' in Hu'.
  exists w''. split; [exact Hrun'|]. rewrite Hu', Hu.
  rewrite !filter_app, !length_app. unfold seeded_rows.
  rewrite !filter_cons_True by reflexivity. simpl. lia.
Qed.

(** X21: the script never raises, and a run in which a database call fails
    leaves the table as it was: rows inserted before the failure were not
    committed. *)
Theorem script_failure_changes_nothing (unique : bool) (w : world) :
  ∃ w', Script.create_test_users unique w = (Some tt, w')
    ∧ (healthy 4 w = false → users (db w') = users (db w)).
Proof.
  destruct (script_outcome unique w) as (w' & Hrun & Hu).
  exists w'. split; [exact Hrun|]. intros Hh. rewrite Hh in Hu. exact Hu.
Qed.

End ScriptProperties.

Lemma script_adds_the_missing_demo_users_witness :
  ∃ w', Script.create_test_users (H := Sample.externals) true
          (mk_world (mk_db [Sample.yamada] 2) [] false [] 1 []) = (Some tt, w')
    ∧ emails (users (db w')) = ["yamada@example.com"; "sato@example.com"].
Proof.
  destruct (script_adds_the_missing_demo_users (H := Sample.externals)
              (mk_world (mk_db [Sample.yamada] 2) [] false [] 1 []) eq_refl)
    as (w' & added & Hrun & _).
  exists w'. split; [exact Hrun|].
  vm_compute in Hrun. injection Hrun as <-. reflexivity.
Defined.

Lemma script_is_idempotent_with_unique_emails_witness :
  users (db (snd (Script.create_test_users (H := Sample.externals) true
               (snd (Script.create_test_users (H := Sample.externals) true
                       Sample.empty_world)))))
  = users (db (snd (Script.create_test_users (H := Sample.externals) true
                      Sample.empty_world))).
Proof.
  exact (script_is_idempotent_with_unique_emails (H := Sample.externals)
           Sample.empty_world eq_refl eq_refl).
Defined.

Lemma script_duplicates_without_unique_emails_witness :
  ∃ w', Script.create_test_users (H := Sample.externals) false Sample.seeded_world
        = (Some tt, w')
    ∧ length (users (db w')) = 4.
Proof.
  destruct (script_duplicates_without_unique_emails (H := Sample.externals)
              Sample.seeded_world eq_refl) as (w' & Hrun & Hu & _).
  exists w'. split; [exact Hrun|]. rewrite Hu. reflexivity.
Defined.

Lemma script_failure_changes_nothing_witness :
  ∃ w', Script.create_test_users (H := Sample.externals) true
          (set_faults [false; false; true] Sample.empty_world) = (Some tt, w')
    ∧ users (db w') = [].
Proof.
  destruct (script_failure_changes_nothing (H := Sample.externals) true
              (set_faults [false; false; true] Sample.empty_world))
    as (w' & Hrun & Hfail).
  exists w'. split; [exact Hrun|]. exact (Hfail eq_refl).
Defined.
